(** * Clash rule parser: a shallow embedding of
      [plugins.v2/clashruleprovider/clash_rule_parser.py]

    The development follows the Python module top to bottom: the text
    primitives the parser relies on ([str.strip], [str.split], [str.upper],
    [str.startswith], [re.match]), the two enumerations, the three rule
    dataclasses, and the static methods of [ClashRuleParser].

    Text is modelled by [string] over ASCII: [isspace] and [upper] are the
    restrictions of Python's Unicode versions to code points below 128, and
    bytes above 127 are treated as ordinary characters.

    [print] is modelled by a log of diagnostics that every function returns
    next to its result, and a raised exception by the [Raise] outcome.

    The file has two parts: the definitions (the embedding of the module,
    then the serializer and the line grammar that the specification
    describes), and the facts proved about them. *)

From Stdlib Require Import Strings.String Strings.Ascii List ZArith Bool Arith Lia.
Import ListNotations.

Set Warnings "-register-all".
Open Scope string_scope.

(* ================================================================== *)
(** ** Python string primitives *)
(* ================================================================== *)

Module PyStr.

(** [str.isspace] on one ASCII character: TAB, LF, VT, FF, CR, the four
    separators FS, GS, RS, US, and the space. *)
Definition whitespace : list ascii :=
  ["009"; "010"; "011"; "012"; "013"; "028"; "029"; "030"; "031"; " "]%char.

Definition isspace (c : ascii) : bool := existsb (Ascii.eqb c) whitespace.

(** [str.upper] on one ASCII character. *)
Definition upper_char (c : ascii) : ascii :=
  let n := nat_of_ascii c in
  if ((97 <=? n) && (n <=? 122))%nat then ascii_of_nat (n - 32) else c.

Fixpoint upper (s : string) : string :=
  match s with
  | EmptyString => EmptyString
  | String c s' => String (upper_char c) (upper s')
  end.

Fixpoint lstrip (s : string) : string :=
  match s with
  | EmptyString => EmptyString
  | String c s' => if isspace c then lstrip s' else s
  end.

Fixpoint rstrip (s : string) : string :=
  match s with
  | EmptyString => EmptyString
  | String c s' =>
      match rstrip s' with
      | EmptyString => if isspace c then EmptyString else String c EmptyString
      | r => String c r
      end
  end.

(** [s.strip()] *)
Definition strip (s : string) : string := lstrip (rstrip s).

(** [bool(s)]: a string is truthy when it is not empty. *)
Definition truthy (s : string) : bool :=
  match s with EmptyString => false | _ => true end.

(** [s.split(sep)] for a one-character separator: never returns the empty
    list, and [''.split(',')] is [['']]. *)
Fixpoint split (sep : ascii) (s : string) : list string :=
  match s with
  | EmptyString => [EmptyString]
  | String c s' =>
      if Ascii.eqb c sep then EmptyString :: split sep s'
      else match split sep s' with
           | h :: t => String c h :: t
           | [] => [String c EmptyString]
           end
  end.

(** [s.split(sep, 1)]: at most one cut, at the first separator. *)
Fixpoint split1 (sep : ascii) (s : string) : list string :=
  match s with
  | EmptyString => [EmptyString]
  | String c s' =>
      if Ascii.eqb c sep then [EmptyString; s']
      else match split1 sep s' with
           | h :: t => String c h :: t
           | [] => [String c EmptyString]
           end
  end.

(** [s.startswith(p)] and [s.startswith((p1, p2, ...))]. *)
Definition startswith (s p : string) : bool := String.prefix p s.

Definition startswith_any (s : string) (ps : list string) : bool :=
  existsb (startswith s) ps.

(** [sep.join(l)]. *)
Definition join (sep : string) (l : list string) : string := String.concat sep l.

(** The comprehension [[p.strip() for p in l if p.strip()]] that all three
    parse paths apply to the pieces of a split. *)
Definition stripped_nonempty (l : list string) : list string :=
  filter truthy (map strip l).

End PyStr.

(* ================================================================== *)
(** ** A backtracking matcher for the fragment of [re] the parser uses *)
(* ================================================================== *)

Module Re.

(** Character classes: a literal, [\s], [.] (anything but a newline, since
    the pattern is compiled without DOTALL) and [[^,]]. *)
Inductive cclass : Type :=
| CLit (c : ascii)
| CSpace
| CDot
| CNotComma.

Definition cmatch (k : cclass) (c : ascii) : bool :=
  match k with
  | CLit d => Ascii.eqb c d
  | CSpace => PyStr.isspace c
  | CDot => negb (Ascii.eqb c "010"%char)
  | CNotComma => negb (Ascii.eqb c ","%char)
  end.

(** Patterns: literal text, alternation, greedy [*] and [+] over a class,
    sequencing, a capturing group and the end anchor [$]. *)
Inductive regex : Type :=
| Lit (s : string)
| Alt (a b : regex)
| Star (k : cclass)
| Plus (k : cclass)
| Seq (a b : regex)
| Group (r : regex)
| Eos.

(** The text consumed between a position [s] and a later position [s']
    (both are suffixes of the subject). *)
Definition consumed (s s' : string) : string :=
  String.substring 0 (String.length s - String.length s')%nat s.

Definition cont : Type := string -> list string -> option (list string).

Fixpoint lit (p s : string) : option string :=
  match p, s with
  | EmptyString, _ => Some s
  | String a p', String b s' => if Ascii.eqb a b then lit p' s' else None
  | String _ _, EmptyString => None
  end.

(** Greedy repetition: take one more character when the class allows it and
    the rest of the pattern then succeeds; otherwise stop here. *)
Fixpoint star (k : cclass) (s : string) (caps : list string) (kont : cont)
  : option (list string) :=
  match s with
  | String c s' =>
      if cmatch k c then
        match star k s' caps kont with
        | Some r => Some r
        | None => kont s caps
        end
      else kont s caps
  | EmptyString => kont s caps
  end.

Definition plus (k : cclass) (s : string) (caps : list string) (kont : cont)
  : option (list string) :=
  match s with
  | String c s' => if cmatch k c then star k s' caps kont else None
  | EmptyString => None
  end.

(** [run r s caps kont]: match [r] at the front of [s], then continue with
    [kont]; the first success in backtracking order is returned. Captured
    groups are collected in the order the groups close. *)
Fixpoint run (r : regex) (s : string) (caps : list string) (kont : cont)
  : option (list string) :=
  match r with
  | Lit p => match lit p s with Some s' => kont s' caps | None => None end
  | Alt a b =>
      match run a s caps kont with
      | Some x => Some x
      | None => run b s caps kont
      end
  | Star k => star k s caps kont
  | Plus k => plus k s caps kont
  | Seq a b => run a s caps (fun s' caps' => run b s' caps' kont)
  | Group g => run g s caps (fun s' caps' => kont s' (caps' ++ [consumed s s'])%list)
  | Eos =>
      (* [$] matches at the end and just before a final newline *)
      if String.eqb s EmptyString || String.eqb s (String "010"%char EmptyString)
      then kont s caps else None
  end.

(** [re.match(r, s)] for a pattern that starts with [^]: the groups of the
    first match, or [None]. *)
Definition re_match (r : regex) (s : string) : option (list string) :=
  run r s [] (fun _ caps => Some caps).


End Re.

Import PyStr.

(* ================================================================== *)
(** ** The two enumerations *)
(* ================================================================== *)

(** [class RuleType(Enum)]: members, their values, and the call
    [RuleType(v)] that looks a member up by value. *)
Module RuleType.

Inductive t : Type :=
| DOMAIN | DOMAIN_SUFFIX | DOMAIN_KEYWORD | DOMAIN_REGEX | GEOSITE
| IP_CIDR | IP_CIDR6 | IP_SUFFIX | IP_ASN | GEOIP
| SRC_GEOIP | SRC_IP_ASN | SRC_IP_CIDR | SRC_IP_SUFFIX
| DST_PORT | SRC_PORT
| IN_PORT | IN_TYPE | IN_USER | IN_NAME
| PROCESS_PATH | PROCESS_PATH_REGEX | PROCESS_NAME | PROCESS_NAME_REGEX
| UID | NETWORK | DSCP
| RULE_SET | AND | OR | NOT | SUB_RULE
| MATCH.

Definition value (k : t) : string :=
  match k with
  | DOMAIN => "DOMAIN" | DOMAIN_SUFFIX => "DOMAIN-SUFFIX"
  | DOMAIN_KEYWORD => "DOMAIN-KEYWORD" | DOMAIN_REGEX => "DOMAIN-REGEX"
  | GEOSITE => "GEOSITE"
  | IP_CIDR => "IP-CIDR" | IP_CIDR6 => "IP-CIDR6" | IP_SUFFIX => "IP-SUFFIX"
  | IP_ASN => "IP-ASN" | GEOIP => "GEOIP"
  | SRC_GEOIP => "SRC-GEOIP" | SRC_IP_ASN => "SRC-IP-ASN"
  | SRC_IP_CIDR => "SRC-IP-CIDR" | SRC_IP_SUFFIX => "SRC-IP-SUFFIX"
  | DST_PORT => "DST-PORT" | SRC_PORT => "SRC-PORT"
  | IN_PORT => "IN-PORT" | IN_TYPE => "IN-TYPE" | IN_USER => "IN-USER"
  | IN_NAME => "IN-NAME"
  | PROCESS_PATH => "PROCESS-PATH" | PROCESS_PATH_REGEX => "PROCESS-PATH-REGEX"
  | PROCESS_NAME => "PROCESS-NAME" | PROCESS_NAME_REGEX => "PROCESS-NAME-REGEX"
  | UID => "UID" | NETWORK => "NETWORK" | DSCP => "DSCP"
  | RULE_SET => "RULE-SET" | AND => "AND" | OR => "OR" | NOT => "NOT"
  | SUB_RULE => "SUB-RULE"
  | MATCH => "MATCH"
  end.

(** Members in definition order. *)
Definition members : list t :=
  [DOMAIN; DOMAIN_SUFFIX; DOMAIN_KEYWORD; DOMAIN_REGEX; GEOSITE;
   IP_CIDR; IP_CIDR6; IP_SUFFIX; IP_ASN; GEOIP;
   SRC_GEOIP; SRC_IP_ASN; SRC_IP_CIDR; SRC_IP_SUFFIX;
   DST_PORT; SRC_PORT;
   IN_PORT; IN_TYPE; IN_USER; IN_NAME;
   PROCESS_PATH; PROCESS_PATH_REGEX; PROCESS_NAME; PROCESS_NAME_REGEX;
   UID; NETWORK; DSCP;
   RULE_SET; AND; OR; NOT; SUB_RULE;
   MATCH].

(** [RuleType(v)] succeeds with the member whose value is [v]; [None]
    stands for the [ValueError] the enum raises otherwise. *)
Definition of_value (v : string) : option t :=
  find (fun k => String.eqb (value k) v) members.

Definition eqb (a b : t) : bool := String.eqb (value a) (value b).

End RuleType.

(** [class Action(Enum)]. *)
Module Action.

Inductive t : Type := DIRECT | REJECT | REJECT_DROP | PASS | COMPATIBLE.

Definition value (a : t) : string :=
  match a with
  | DIRECT => "DIRECT" | REJECT => "REJECT" | REJECT_DROP => "REJECT-DROP"
  | PASS => "PASS" | COMPATIBLE => "COMPATIBLE"
  end.

Definition members : list t := [DIRECT; REJECT; REJECT_DROP; PASS; COMPATIBLE].

Definition of_value (v : string) : option t :=
  find (fun a => String.eqb (value a) v) members.

End Action.

(** [Union[Action, str]]: the type of every [action] field. *)
Inductive action_or_str : Type :=
| ActionEnum (a : Action.t)
| ActionStr (s : string).

(* ================================================================== *)
(** ** The rule dataclasses *)
(* ================================================================== *)

(** [@dataclass class ClashRule]; [additional_params] is the list that
    [__post_init__] leaves in the field ([[]] for the default [None]). *)
Module ClashRule.

Record t : Type := Build {
  rule_type : RuleType.t;
  payload : string;
  action : action_or_str;
  additional_params : list string;
  raw_rule : string;
  priority : Z
}.

Definition condition_string (self : t) : string :=
  RuleType.value (rule_type self) ++ "," ++ payload self.

End ClashRule.

(** [@dataclass class LogicRule]; [conditions] has the declared element
    type [Union[ClashRule, 'LogicRule']]. *)
Module LogicRule.

Inductive t : Type :=
| Build (logic_type : RuleType.t)
        (conditions : list (ClashRule.t + t))
        (action : action_or_str)
        (raw_rule : string)
        (priority : Z).

Definition logic_type (self : t) : RuleType.t :=
  match self with Build k _ _ _ _ => k end.
Definition conditions (self : t) : list (ClashRule.t + t) :=
  match self with Build _ c _ _ _ => c end.
Definition action (self : t) : action_or_str :=
  match self with Build _ _ a _ _ => a end.
Definition raw_rule (self : t) : string :=
  match self with Build _ _ _ r _ => r end.
Definition priority (self : t) : Z :=
  match self with Build _ _ _ _ p => p end.

Fixpoint condition_string (self : t) : string :=
  match self with
  | Build k conds _ _ _ =>
      let conditions_str :=
        join ","
          (map (fun c : ClashRule.t + t =>
                  "(" ++ match c with
                         | inl r => ClashRule.condition_string r
                         | inr l => condition_string l
                         end ++ ")")
               conds) in
      RuleType.value k ++ ",(" ++ conditions_str ++ ")"
  end.

End LogicRule.

(** [@dataclass class MatchRule]. *)
Module MatchRule.

Record t : Type := Build {
  action : action_or_str;
  raw_rule : string;
  priority : Z;
  rule_type : RuleType.t
}.

Definition condition_string : string := "MATCH".

End MatchRule.

(** [Union[ClashRule, LogicRule, MatchRule]]: what the parser returns. *)
Inductive Rule : Type :=
| RClash (r : ClashRule.t)
| RLogic (r : LogicRule.t)
| RMatch (r : MatchRule.t).

(* ================================================================== *)
(** ** Arguments of the two public entry points *)
(* ================================================================== *)

(** An entry of the ["conditions"] list of a rule dictionary: a dictionary
    (of which only ["type"] and ["payload"] are read), a string, or any
    other object. *)
Inductive cond_entry : Type :=
| CondDict (type payload : option string)
| CondStr (s : string)
| CondOther.

(** The value under ["conditions"]: a list, or an object that is not a
    list (given with the text of its type). *)
Inductive conds_value : Type :=
| CondsList (l : list cond_entry)
| CondsOther (type_text : string).

(** The value under ["additional_params"]: a list (each element given by
    its [str()]), or an object that is not a list. *)
Inductive params_value : Type :=
| ParamsList (l : list string)
| ParamsOther.

(** A rule dictionary, by the five keys [parse_rule_dict] reads; [None] is
    an absent key. ["type"], ["payload"] and ["action"] hold strings. *)
Record rule_dict : Type := {
  d_type : option string;
  d_payload : option string;
  d_action : option string;
  d_additional_params : option params_value;
  d_conditions : option conds_value
}.

(** What a caller may pass: a string, a dictionary, or something else. *)
Inductive py_arg : Type :=
| PStr (s : string)
| PDict (d : rule_dict)
| POther.

(** [d.get(key, "")] *)
Definition get_str (v : option string) : string :=
  match v with Some s => s | None => EmptyString end.

(* ================================================================== *)
(** ** Exceptions and printed diagnostics *)
(* ================================================================== *)

Inductive exn : Type := ValueError (msg : string).

Definition exn_str (e : exn) : string := match e with ValueError m => m end.

(** One call of [print]. Messages that interpolate an arbitrary object are
    kept structured. *)
Inductive diag : Type :=
| Printed (text : string)
    (* [print(text)] *)
| PrintedExpected (what : string) (x : py_arg)
    (* [print(f"Expected {what} but got {type(x)}: {x}")] *)
| PrintedDictError (d : rule_dict) (msg : string).
    (* [print(f"Error parsing rule dict {d}: {msg}")] *)

Inductive result (A : Type) : Type :=
| Ok (a : A)
| Raise (e : exn).
Arguments Ok {A} a.
Arguments Raise {A} e.

(** A computation returns or raises, and leaves what it printed. *)
Definition M (A : Type) : Type := (result A * list diag)%type.

Definition ret {A} (a : A) : M A := (Ok a, []).
Definition raise {A} (e : exn) : M A := (Raise e, []).
Definition print (text : string) : M unit := (Ok tt, [Printed text]).
Definition emit (d : diag) : M unit := (Ok tt, [d]).

Definition bind {A B} (m : M A) (f : A -> M B) : M B :=
  match m with
  | (Ok a, l) => let (r, l') := f a in (r, (l ++ l')%list)
  | (Raise e, l) => (Raise e, l)
  end.

(** [try: m  except ...: h e] *)
Definition try_catch {A} (m : M A) (h : exn -> M A) : M A :=
  match m with
  | (Ok a, l) => (Ok a, l)
  | (Raise e, l) => let (r, l') := h e in (r, (l ++ l')%list)
  end.

Notation "x <- m ;; k" := (bind m (fun x => k))
  (at level 61, m at next level, right associativity).
Notation "m ;;; k" := (bind m (fun _ => k))
  (at level 61, right associativity).

(** The enum calls inside the monad; the text of the [ValueError] of a
    failed lookup is never printed by the parser. *)
Definition RuleType_call (v : string) : M RuleType.t :=
  match RuleType.of_value v with
  | Some k => ret k
  | None => raise (ValueError ("'" ++ v ++ "' is not a valid RuleType"))
  end.

Definition Action_call (v : string) : M Action.t :=
  match Action.of_value v with
  | Some a => ret a
  | None => raise (ValueError ("'" ++ v ++ "' is not a valid Action"))
  end.

(* ================================================================== *)
(** ** [class ClashRuleParser] *)
(* ================================================================== *)

(** [parts[i]] for an index the code has checked to be in range. *)
Definition item (parts : list string) (i : nat) : string :=
  nth i parts EmptyString.

(** The action idiom shared by the three paths:
[[
    try:    final_action = Action(action.upper())
    except ValueError: final_action = action
]] *)
Definition final_action_of (action : string) : M action_or_str :=
  try_catch
    (action_enum <- Action_call (upper action) ;;
     ret (ActionEnum action_enum))
    (fun _ => ret (ActionStr action)).

Definition _parse_match_rule (line : string) : M MatchRule.t :=
  let parts := stripped_nonempty (split "," line) in
  if negb (Nat.eqb (List.length parts) 2) then
    raise (ValueError ("Invalid MATCH rule format: " ++ line))
  else
    let action := item parts 1 in
    try_catch
      (action_enum <- Action_call (upper action) ;;
       ret (MatchRule.Build (ActionEnum action_enum) line 0 RuleType.MATCH))
      (fun _ => ret (MatchRule.Build (ActionStr action) line 0 RuleType.MATCH)).

Definition _parse_regular_rule (line : string) : M ClashRule.t :=
  let parts := stripped_nonempty (split "," line) in
  if Nat.ltb (List.length parts) 3 then
    raise (ValueError
             ("Invalid rule format (needs at least 3 parts): " ++ line))
  else
    let rule_type_str := upper (item parts 0) in
    let payload := item parts 1 in
    let action := item parts 2 in
    let additional_params :=
      if Nat.ltb 3 (List.length parts) then skipn 3 parts else [] in
    rule_type <-
      try_catch (RuleType_call rule_type_str)
        (fun _ => raise (ValueError ("Unknown rule type '" ++ rule_type_str
                                       ++ "' in rule: " ++ line))) ;;
    final_action <- final_action_of action ;;
    ret (ClashRule.Build rule_type payload final_action additional_params
           line 0).

Definition _parse_single_condition (condition_str : string)
  : M (option ClashRule.t) :=
  let parts := stripped_nonempty (split1 "," condition_str) in
  if negb (Nat.eqb (List.length parts) 2) then
    print ("Invalid condition format: " ++ condition_str) ;;;
    ret None
  else
    let rule_type_str := item parts 0 in
    let payload := item parts 1 in
    try_catch
      (rule_type <- RuleType_call (upper rule_type_str) ;;
       ret (Some (ClashRule.Build rule_type payload (ActionStr "") []
                    condition_str 0)))
      (fun _ =>
         print ("Invalid rule type in condition: " ++ rule_type_str) ;;;
         ret None).

(** The three locals of the scan in [_parse_logic_conditions]. *)
Record scan : Type := {
  conditions : list ClashRule.t;
  stack : list ascii;
  current : string
}.

Definition add_char (s : string) (c : ascii) : string :=
  s ++ String c EmptyString.

(** One iteration of [for char in conditions_str]. *)
Definition scan_char (conditions_str : string) (st : scan) (char : ascii)
  : M scan :=
  if Ascii.eqb char "("%char then
    let current' :=
      match stack st with
      | [] => current st
      | _ => add_char (current st) char
      end in
    ret {| conditions := conditions st;
           stack := (stack st ++ [char])%list;
           current := current' |}
  else if Ascii.eqb char ")"%char then
    match stack st with
    | [] =>
        print ("Unmatched closing parenthesis in conditions: "
                 ++ conditions_str) ;;;
        ret st
    | _ =>
        let stack' := removelast (stack st) in
        match stack' with
        | [] =>
            conditions' <-
              try_catch
                (rule <- _parse_single_condition (current st) ;;
                 match rule with
                 | Some r => ret (conditions st ++ [r])%list
                 | None => ret (conditions st)
                 end)
                (fun e =>
                   print ("Skipping invalid condition '" ++ current st
                            ++ "': " ++ exn_str e) ;;;
                   ret (conditions st)) ;;
            ret {| conditions := conditions';
                   stack := stack';
                   current := EmptyString |}
        | _ =>
            ret {| conditions := conditions st;
                   stack := stack';
                   current := add_char (current st) char |}
        end
    end
  else
    match stack st with
    | [] => ret st
    | _ => ret {| conditions := conditions st;
                  stack := stack st;
                  current := add_char (current st) char |}
    end.

Fixpoint scan_loop (conditions_str : string) (rest : string) (st : scan)
  : M scan :=
  match rest with
  | EmptyString => ret st
  | String char rest' =>
      st' <- scan_char conditions_str st char ;;
      scan_loop conditions_str rest' st'
  end.

Definition _parse_logic_conditions (conditions_str : string)
  : M (list ClashRule.t) :=
  st <- scan_loop conditions_str conditions_str
          {| conditions := []; stack := []; current := EmptyString |} ;;
  ret (conditions st).

(** [r'^(AND|OR|NOT),\s*\((.+)\)\s*,\s*([^,]+)$'], written as the keyword
    group followed by the rest of the pattern. *)
Definition logic_keyword_re : Re.regex :=
  Re.Alt (Re.Lit "AND") (Re.Alt (Re.Lit "OR") (Re.Lit "NOT")).

Definition logic_rest_re : Re.regex :=
  Re.Seq (Re.Lit ",")
 (Re.Seq (Re.Star Re.CSpace)
 (Re.Seq (Re.Lit "(")
 (Re.Seq (Re.Group (Re.Plus Re.CDot))
 (Re.Seq (Re.Lit ")")
 (Re.Seq (Re.Star Re.CSpace)
 (Re.Seq (Re.Lit ",")
 (Re.Seq (Re.Star Re.CSpace)
 (Re.Seq (Re.Group (Re.Plus Re.CNotComma))
         Re.Eos)))))))).

Definition logic_rule_re : Re.regex :=
  Re.Seq (Re.Group logic_keyword_re) logic_rest_re.

Definition _parse_logic_rule (line : string) : M LogicRule.t :=
  match Re.re_match logic_rule_re (strip line) with
  | None => raise (ValueError ("Invalid logic rule format: " ++ line))
  | Some groups =>
      let logic_type_str := upper (item groups 0) in
      let conditions_str := strip (item groups 1) in
      let action := strip (item groups 2) in
      try_catch
        (logic_type <- RuleType_call logic_type_str ;;
         conditions <- _parse_logic_conditions conditions_str ;;
         final_action <- final_action_of action ;;
         ret (LogicRule.Build logic_type (map inl conditions) final_action
                line 0))
        (fun _ => raise (ValueError ("Invalid logic rule: " ++ line)))
  end.

Definition parse_rule_line (line : py_arg) : M (option Rule) :=
  match line with
  | PStr line =>
      let line := strip line in
      if negb (truthy line) then ret None
      else
        try_catch
          (if startswith_any line ["AND,"; "OR,"; "NOT,"] then
             r <- _parse_logic_rule line ;; ret (Some (RLogic r))
           else if startswith (upper line) "MATCH," then
             r <- _parse_match_rule line ;; ret (Some (RMatch r))
           else
             r <- _parse_regular_rule line ;; ret (Some (RClash r)))
          (fun e =>
             print ("Error parsing rule '" ++ line ++ "': " ++ exn_str e) ;;;
             ret None)
  | other =>
      emit (PrintedExpected "string" other) ;;;
      ret None
  end.

(** The text one entry of ["conditions"] adds to [conditions_str]. *)
Definition cond_text (cond : cond_entry) : string :=
  match cond with
  | CondDict type payload =>
      let cond_type := get_str type in
      let cond_payload := get_str payload in
      if truthy cond_type && truthy cond_payload
      then "(" ++ cond_type ++ "," ++ cond_payload ++ ")"
      else EmptyString
  | CondStr s => s
  | CondOther => EmptyString
  end.

Definition parse_rule_dict (rule_dict : py_arg) : M (option Rule) :=
  match rule_dict with
  | PStr _ => parse_rule_line rule_dict
  | POther =>
      emit (PrintedExpected "dict" rule_dict) ;;;
      ret None
  | PDict d =>
      try_catch
        (let rule_type := upper (get_str (d_type d)) in
         let action := get_str (d_action d) in
         if negb (truthy rule_type) then
           print "Missing 'type' in rule dict" ;;; ret None
         else if existsb (String.eqb rule_type) ["AND"; "OR"; "NOT"] then
           match d_conditions d with
           | Some (CondsOther type_text) =>
               print ("Expected list of conditions but got " ++ type_text) ;;;
               ret None
           | conditions =>
               let conditions :=
                 match conditions with
                 | Some (CondsList l) => l
                 | _ => []
                 end in
               let conditions_str :=
                 fold_left (fun acc cond => acc ++ cond_text cond)
                   conditions EmptyString in
               if negb (truthy conditions_str) then
                 print "No valid conditions found" ;;; ret None
               else
                 let raw_rule :=
                   rule_type ++ ",(" ++ conditions_str ++ ")," ++ action in
                 r <- _parse_logic_rule raw_rule ;; ret (Some (RLogic r))
           end
         else if String.eqb rule_type "MATCH" then
           if negb (truthy action) then
             print "Missing action for MATCH rule" ;;; ret None
           else
             let raw_rule := "MATCH," ++ action in
             r <- _parse_match_rule raw_rule ;; ret (Some (RMatch r))
         else
           let payload := get_str (d_payload d) in
           if negb (truthy payload) then
             print ("Missing payload for rule type " ++ rule_type) ;;;
             ret None
           else
             let additional_params :=
               match d_additional_params d with
               | Some (ParamsList l) => l
               | _ => []
               end in
             let raw_rule := rule_type ++ "," ++ payload ++ "," ++ action in
             let raw_rule :=
               match additional_params with
               | [] => raw_rule
               | _ => raw_rule ++ "," ++ join "," additional_params
               end in
             r <- _parse_regular_rule raw_rule ;; ret (Some (RClash r)))
        (fun e => emit (PrintedDictError d (exn_str e)) ;;; ret None)
  end.

(** What a call printed. *)
Definition printed {A} (m : M A) : list diag := snd m.

(* ================================================================== *)
(** ** Outcomes of a call *)
(* ================================================================== *)

(** What the caller of an entry point receives: the rule, or [None]. *)
Definition value_of (m : M (option Rule)) : option Rule :=
  match fst m with
  | Ok v => v
  | Raise _ => None
  end.



(** The pieces every path works on: the non-empty trimmed comma fields. *)
Definition fields (line : string) : list string :=
  stripped_nonempty (split "," line).





(** [all_chars p s]: every character of [s] satisfies [p]. *)
Fixpoint all_chars (p : ascii -> bool) (s : string) : bool :=
  match s with
  | EmptyString => true
  | String c s' => p c && all_chars p s'
  end.

Definition is_paren (c : ascii) : bool :=
  Ascii.eqb c "("%char || Ascii.eqb c ")"%char.

Definition paren_free (s : string) : bool :=
  all_chars (fun c => negb (is_paren c)) s.

(** [balanced_from d s]: read from nesting depth [d], the parentheses of
    [s] never close more than is open and leave nothing open. *)
Fixpoint balanced_from (d : nat) (s : string) : bool :=
  match s with
  | EmptyString => Nat.eqb d 0
  | String c s' =>
      if Ascii.eqb c "("%char then balanced_from (S d) s'
      else if Ascii.eqb c ")"%char then
        match d with
        | O => false
        | S d' => balanced_from d' s'
        end
      else balanced_from d s'
  end.

Definition balanced (s : string) : bool := balanced_from 0 s.



(** What [_parse_single_condition] makes of each group: the rules it
    returns, in order, and the lines it prints. *)
Definition kept_of (g : string) : list ClashRule.t :=
  match fst (_parse_single_condition g) with
  | Ok (Some r) => [r]
  | _ => []
  end.

Definition kept (gs : list (string * string)) : list ClashRule.t :=
  flat_map (fun p => kept_of (fst p)) gs.


(** The three parse paths, and the one [parse_rule_line] selects for a
    trimmed line. *)
Inductive path : Type := LogicPath | MatchPath | SimplePath.

Definition dispatch (line : string) : path :=
  if startswith_any line ["AND,"; "OR,"; "NOT,"] then LogicPath
  else if startswith (upper line) "MATCH," then MatchPath
  else SimplePath.

Definition parse_on (p : path) (line : string) : M (option Rule) :=
  match p with
  | LogicPath => r <- _parse_logic_rule line ;; ret (Some (RLogic r))
  | MatchPath => r <- _parse_match_rule line ;; ret (Some (RMatch r))
  | SimplePath => r <- _parse_regular_rule line ;; ret (Some (RClash r))
  end.

(** The line [parse_rule_dict] builds from a dictionary ([raw_rule] in the
    source) and the path parser it hands the line to; [None] when it
    returns before building one. *)
Definition dict_line (d : rule_dict) : option (path * string) :=
  let rule_type := upper (get_str (d_type d)) in
  let action := get_str (d_action d) in
  if negb (truthy rule_type) then None
  else if existsb (String.eqb rule_type) ["AND"; "OR"; "NOT"] then
    match d_conditions d with
    | Some (CondsOther _) => None
    | conditions =>
        let conditions :=
          match conditions with
          | Some (CondsList l) => l
          | _ => []
          end in
        let conditions_str :=
          fold_left (fun acc cond => acc ++ cond_text cond)
            conditions EmptyString in
        if negb (truthy conditions_str) then None
        else Some (LogicPath,
                   rule_type ++ ",(" ++ conditions_str ++ ")," ++ action)
    end
  else if String.eqb rule_type "MATCH" then
    if negb (truthy action) then None
    else Some (MatchPath, "MATCH," ++ action)
  else
    let payload := get_str (d_payload d) in
    if negb (truthy payload) then None
    else
      let additional_params :=
        match d_additional_params d with
        | Some (ParamsList l) => l
        | _ => []
        end in
      let raw_rule := rule_type ++ "," ++ payload ++ "," ++ action in
      Some (SimplePath,
            match additional_params with
            | [] => raw_rule
            | _ => raw_rule ++ "," ++ join "," additional_params
            end).


(* ================================================================== *)
(** ** The serializer and the line grammar *)
(* ================================================================== *)



(** The characters that give a line its structure. *)
Definition is_delim (c : ascii) : bool :=
  Ascii.eqb c ","%char || Ascii.eqb c "("%char || Ascii.eqb c ")"%char.



Definition comma_free (s : string) : bool :=
  all_chars (fun c => negb (Ascii.eqb c ","%char)) s.

(** Whitespace, and whitespace that does not break the line. *)
Definition is_ws (s : string) : bool := all_chars isspace s.
































(* ================================================================== *)
(** ** Views of a parsed rule *)
(* ================================================================== *)




(** The value a call returned, if it returned. *)
Definition ok_value {A} (m : M A) : option A :=
  match fst m with
  | Ok a => Some a
  | Raise _ => None
  end.

(** A [ClashRule] without the line it was read from. *)
Definition clash_core (r : ClashRule.t)
  : RuleType.t * string * action_or_str * list string :=
  (ClashRule.rule_type r, ClashRule.payload r, ClashRule.action r,
   ClashRule.additional_params r).

Definition match_core (r : MatchRule.t) : action_or_str * RuleType.t :=
  (MatchRule.action r, MatchRule.rule_type r).

(* ================================================================== *)
(** ** Layout of an arbitrary condition body *)
(* ================================================================== *)

(** What the scan of [_parse_logic_conditions] meets at nesting depth 0: a
    parenthesised group, text without parentheses, or a closing
    parenthesis that closes nothing. *)
Inductive body_item : Type :=
| IGroup (g : string)
| IText (s : string)
| IStray.

Definition item_text (i : body_item) : string :=
  match i with
  | IGroup g => "(" ++ g ++ ")"
  | IText s => s
  | IStray => ")"
  end.

Definition wf_item (i : body_item) : bool :=
  match i with
  | IGroup g => balanced g
  | IText s => paren_free s
  | IStray => true
  end.

(** [stays_open d s]: read inside a group at nesting depth [S d], the
    text [s] never closes the group. *)
Fixpoint stays_open (d : nat) (s : string) : bool :=
  match s with
  | EmptyString => true
  | String c s' =>
      if Ascii.eqb c "("%char then stays_open (S d) s'
      else if Ascii.eqb c ")"%char then
        match d with
        | O => false
        | S d' => stays_open d' s'
        end
      else stays_open d s'
  end.

(** A body: items, then possibly a group that is opened and never closed. *)
Definition items_text (items : list body_item) : string :=
  String.concat "" (map item_text items).

Definition open_text (unclosed : option string) : string :=
  match unclosed with
  | Some g => "(" ++ g
  | None => EmptyString
  end.

Definition wf_open (unclosed : option string) : bool :=
  match unclosed with
  | Some g => stays_open 0 g
  | None => true
  end.

Definition items_rules (items : list body_item) : list ClashRule.t :=
  flat_map (fun i => match i with IGroup g => kept_of g | _ => [] end) items.

(** What is printed for a body [whole] laid out as [items]. *)
Definition items_log (whole : string) (items : list body_item) : list diag :=
  flat_map
    (fun i =>
       match i with
       | IGroup g => printed (_parse_single_condition g)
       | IText _ => []
       | IStray =>
           [Printed ("Unmatched closing parenthesis in conditions: " ++ whole)]
       end)
    items.

(* ================================================================== *)
(** ** Rule dictionaries *)
(* ================================================================== *)

(** The same dictionary with another value under ["type"]. *)
Definition with_type (d : rule_dict) (t : string) : rule_dict :=
  {| d_type := Some t;
     d_payload := d_payload d;
     d_action := d_action d;
     d_additional_params := d_additional_params d;
     d_conditions := d_conditions d |}.

(** The same dictionary with another list under ["conditions"]. *)
Definition with_conditions (d : rule_dict) (l : list cond_entry) : rule_dict :=
  {| d_type := d_type d;
     d_payload := d_payload d;
     d_action := d_action d;
     d_additional_params := d_additional_params d;
     d_conditions := Some (CondsList l) |}.


(** An entry of ["conditions"] that adds text to the line. *)
Definition cond_usable (c : cond_entry) : bool := truthy (cond_text c).

(* ================================================================== *)
(** ** [ClashRuleProvider.__remove_nodes_by_keywords]
       ([plugins.v2/clashruleprovider/__init__.py]) *)
(* ================================================================== *)

(** [kw in s] for two strings: [kw] occurs in [s] (the empty string occurs
    in every string). *)
Fixpoint contains (kw s : string) : bool :=
  String.prefix kw s ||
  match s with
  | EmptyString => false
  | String _ s' => contains kw s'
  end.

Module NodeFilter.

Section Config.

(** The keys of a dictionary that the function does not read. *)
Context {Fields : Type}.

(** The value under ["name"] of a proxy: absent, a string, or not a
    string. *)
Inductive name_value : Type :=
| NameAbsent
| NameStr (s : string)
| NameOther.

(** An entry of ["proxies"]: a dictionary, or something else. *)
Inductive proxy_entry : Type :=
| ProxyDict (name : name_value) (other : Fields)
| ProxyOther.

(** The value under ["proxies"] of the configuration. *)
Inductive proxies_value : Type :=
| ProxiesList (l : list proxy_entry)
| ProxiesOther.

(** A member of the ["proxies"] list of a group: a string or not. *)
Inductive group_member : Type :=
| MemberStr (s : string)
| MemberOther.

(** The value under ["proxies"] of a group: a list, or another object
    (given by its truth value). *)
Inductive group_proxies : Type :=
| GroupList (l : list group_member)
| GroupOther (is_truthy : bool).

(** An entry of ["proxy-groups"]: a dictionary, or something else. *)
Inductive group_entry : Type :=
| GroupDict (proxies : option group_proxies) (other : Fields)
| GroupEntryOther.

Inductive groups_value : Type :=
| GroupsList (l : list group_entry)
| GroupsOther.

Record clash_config : Type := {
  c_proxies : option proxies_value;
  c_proxy_groups : option groups_value;
  c_other : Fields
}.

(** The argument ([clash_config]) and what is returned: the configuration
    dictionary, or [{}] for an argument that is not a dictionary. *)
Inductive config_arg : Type :=
| ConfigDict (c : clash_config)
| ConfigOther.

Inductive config_result : Type :=
| ResultConfig (c : clash_config)
| ResultEmpty.

(** An element of [self._filter_keywords], a list. *)
Inductive filter_keyword : Type :=
| KeywordStr (s : string)
| KeywordOther.

(** The calls of [logger]. *)
Inductive log_event : Type :=
| ErrorNotDict            (* [logger.error]: the configuration is no dict *)
| WarnProxiesNotList      (* [logger.warning]: proxies is no list *)
| WarnNoNodeLeft.         (* [logger.warning]: nothing left, filter skipped *)

(** [proxy.get("name", "")] for a name that is a string. *)
Definition name_text (n : name_value) : string :=
  match n with
  | NameStr s => s
  | _ => EmptyString
  end.

(** [any(keyword in proxy_name for keyword in self._filter_keywords
         if isinstance(keyword, str))] *)
Definition has_keywords (filter_keywords : list filter_keyword)
    (proxy_name : string) : bool :=
  existsb (fun keyword =>
             match keyword with
             | KeywordStr k => contains k proxy_name
             | KeywordOther => false
             end)
    filter_keywords.

(** One iteration of [for proxy in config_proxies], on the two lists
    [removed_proxies] and [proxies]. *)
Definition proxy_step (filter_keywords : list filter_keyword)
    (acc : list string * list proxy_entry) (proxy : proxy_entry)
  : list string * list proxy_entry :=
  let (removed_proxies, proxies) := acc in
  match proxy with
  | ProxyOther => acc
  | ProxyDict NameOther _ => acc
  | ProxyDict name _ =>
      let proxy_name := name_text name in
      if has_keywords filter_keywords proxy_name
      then ((removed_proxies ++ [proxy_name])%list, proxies)
      else (removed_proxies, (proxies ++ [proxy])%list)
  end.

(** [isinstance(p, str) and p not in removed_proxies] *)
Definition member_kept (removed_proxies : list string) (p : group_member)
  : bool :=
  match p with
  | MemberStr s => negb (existsb (String.eqb s) removed_proxies)
  | MemberOther => false
  end.

(** The body of [for group in proxy_groups]. *)
Definition clean_group (removed_proxies : list string) (group : group_entry)
  : group_entry :=
  match group with
  | GroupDict (Some (GroupList group_proxies)) other =>
      GroupDict
        (Some (GroupList (filter (member_kept removed_proxies) group_proxies)))
        other
  | _ => group
  end.

(** [isinstance(g, dict) and g.get("proxies", [])] *)
Definition group_kept (g : group_entry) : bool :=
  match g with
  | GroupDict (Some (GroupList l)) _ =>
      match l with [] => false | _ => true end
  | GroupDict (Some (GroupOther t)) _ => t
  | GroupDict None _ => false
  | GroupEntryOther => false
  end.

Definition set_proxies (c : clash_config) (proxies : list proxy_entry)
  : clash_config :=
  {| c_proxies := Some (ProxiesList proxies);
     c_proxy_groups := c_proxy_groups c;
     c_other := c_other c |}.

Definition set_proxy_groups (c : clash_config) (groups : list group_entry)
  : clash_config :=
  {| c_proxies := c_proxies c;
     c_proxy_groups := Some (GroupsList groups);
     c_other := c_other c |}.

(** The function, with [self._filter_keywords] as its first argument. It
    returns the dictionary it was given, updated in place, and what it
    logged. No step of its body raises on values of these types, so the
    handler of its [try] is never entered. *)
Definition __remove_nodes_by_keywords
    (filter_keywords : list filter_keyword) (clash_config : config_arg)
  : config_result * list log_event :=
  match clash_config with
  | ConfigOther => (ResultEmpty, [ErrorNotDict])
  | ConfigDict cfg =>
      let (config_proxies, log1) :=
        match c_proxies cfg with
        | Some (ProxiesList l) => (l, [])
        | Some ProxiesOther => ([], [WarnProxiesNotList])
        | None => ([], [])
        end in
      let (removed_proxies, proxies) :=
        fold_left (proxy_step filter_keywords) config_proxies ([], []) in
      let '(cfg, removed_proxies, log2) :=
        match proxies with
        | [] => (cfg, [], [WarnNoNodeLeft])
        | _ => (set_proxies cfg proxies, removed_proxies, [])
        end in
      let cfg :=
        match c_proxy_groups cfg with
        | None => cfg
        | Some v =>
            let proxy_groups :=
              match v with
              | GroupsList l => l
              | GroupsOther => []
              end in
            let proxy_groups := map (clean_group removed_proxies) proxy_groups in
            set_proxy_groups cfg (filter group_kept proxy_groups)
        end in
      (ResultConfig cfg, (log1 ++ log2)%list)
  end.

(** A proxy that the loop keeps: a dictionary whose name is a string (or
    absent) in which no keyword occurs. *)
Definition survives (filter_keywords : list filter_keyword)
    (proxy : proxy_entry) : bool :=
  match proxy with
  | ProxyOther => false
  | ProxyDict NameOther _ => false
  | ProxyDict name _ => negb (has_keywords filter_keywords (name_text name))
  end.

(** The names the loop collects in [removed_proxies]. *)
Definition removed_name (filter_keywords : list filter_keyword)
    (proxy : proxy_entry) : list string :=
  match proxy with
  | ProxyOther => []
  | ProxyDict NameOther _ => []
  | ProxyDict name _ =>
      if has_keywords filter_keywords (name_text name)
      then [name_text name] else []
  end.

Definition removed_names (filter_keywords : list filter_keyword)
    (l : list proxy_entry) : list string :=
  flat_map (removed_name filter_keywords) l.

(** The configuration of a result ([{}] has no key). *)
Definition result_proxies (r : config_result) : option proxies_value :=
  match r with
  | ResultConfig c => c_proxies c
  | ResultEmpty => None
  end.

Definition result_groups (r : config_result) : option groups_value :=
  match r with
  | ResultConfig c => c_proxy_groups c
  | ResultEmpty => None
  end.

(** The list under ["proxies"], when there is one. *)
Definition proxies_list (c : clash_config) : list proxy_entry :=
  match c_proxies c with
  | Some (ProxiesList l) => l
  | _ => []
  end.

Definition groups_list (c : clash_config) : list group_entry :=
  match c_proxy_groups c with
  | Some (GroupsList l) => l
  | _ => []
  end.

(** The names that are taken out of the groups: those collected by the
    loop, unless no proxy is left, in which case none. *)
Definition effective_removed (filter_keywords : list filter_keyword)
    (c : clash_config) : list string :=
  match filter (survives filter_keywords) (proxies_list c) with
  | [] => []
  | _ => removed_names filter_keywords (proxies_list c)
  end.

(** The configuration the function hands back, in one expression: the
    proxies that survive, unless there is none, and the groups cleaned of
    the removed names and of what is not a string, without the groups
    left empty. *)
Definition filtered_config (filter_keywords : list filter_keyword)
    (c : clash_config) : clash_config :=
  let c1 :=
    match filter (survives filter_keywords) (proxies_list c) with
    | [] => c
    | kept => set_proxies c kept
    end in
  match c_proxy_groups c with
  | None => c1
  | Some _ =>
      set_proxy_groups c1
        (filter group_kept
           (map (clean_group (effective_removed filter_keywords c))
              (groups_list c)))
  end.

End Config.

Arguments name_value : clear implicits.
Arguments proxy_entry : clear implicits.
Arguments proxies_value : clear implicits.
Arguments group_entry : clear implicits.
Arguments groups_value : clear implicits.
Arguments clash_config : clear implicits.
Arguments config_arg : clear implicits.
Arguments config_result : clear implicits.

End NodeFilter.

Section MonadFacts.

Context {A B : Type}.



Lemma try_catch_ok (m : M A) (h : exn -> M A) a l :
  m = (Ok a, l) -> try_catch m h = (Ok a, l).
Proof. now intros ->. Qed.


End MonadFacts.

Lemma final_action_of_returns action :
  final_action_of action
  = (Ok match Action.of_value (upper action) with
        | Some a => ActionEnum a
        | None => ActionStr action
        end, []).
Proof.
  unfold final_action_of, Action_call.
  now destruct (Action.of_value (upper action)).
Qed.

(** The enum tables are inverse to their value maps. *)
Lemma RuleType_of_value_value k : RuleType.of_value (RuleType.value k) = Some k.
Proof. now destruct k. Qed.


Lemma Action_of_value_value a : Action.of_value (Action.value a) = Some a.
Proof. now destruct a. Qed.


Lemma Action_of_value_none v :
  Action.of_value v = None -> forall a, Action.value a <> v.
Proof.
  intros H a Ha. subst v. rewrite Action_of_value_value in H. discriminate.
Qed.

(* ================================================================== *)
(** ** No exception leaves the parser *)
(* ================================================================== *)

Lemma try_catch_reraise_inv {A} (m : M A) (h : exn -> M A) a l :
  (forall e, exists e' l', h e = (Raise e', l')) ->
  try_catch m h = (Ok a, l) -> m = (Ok a, l).
Proof.
  intros Hh. destruct m as [[a0|e] l0]; simpl; auto.
  destruct (Hh e) as (e' & l' & ->). discriminate.
Qed.

Lemma _parse_single_condition_returns s :
  exists o l, _parse_single_condition s = (Ok o, l).
Proof.
  unfold _parse_single_condition.
  destruct (negb _).
  - eexists _, _. reflexivity.
  - unfold RuleType_call.
    destruct (RuleType.of_value _); eexists _, _; reflexivity.
Qed.








(* ================================================================== *)
(** ** The Match and Simple paths in closed form *)
(* ================================================================== *)

Lemma _parse_match_rule_eq line :
  _parse_match_rule line =
  match fields line with
  | [_; action] =>
      (Ok (MatchRule.Build
             match Action.of_value (upper action) with
             | Some a => ActionEnum a
             | None => ActionStr action
             end line 0 RuleType.MATCH), [])
  | _ => (Raise (ValueError ("Invalid MATCH rule format: " ++ line)), [])
  end.
Proof.
  unfold _parse_match_rule, fields.
  destruct (stripped_nonempty (split "," line)) as [|a [|b [|c l]]]; try reflexivity.
  unfold item, Action_call. simpl. now destruct (Action.of_value (upper b)).
Qed.

Lemma _parse_regular_rule_eq line :
  _parse_regular_rule line =
  match fields line with
  | kind :: payload :: action :: rest =>
      match RuleType.of_value (upper kind) with
      | Some k =>
          (Ok (ClashRule.Build k payload
                 match Action.of_value (upper action) with
                 | Some a => ActionEnum a
                 | None => ActionStr action
                 end rest line 0), [])
      | None =>
          (Raise (ValueError ("Unknown rule type '" ++ upper kind
                                ++ "' in rule: " ++ line)), [])
      end
  | _ => (Raise (ValueError
                   ("Invalid rule format (needs at least 3 parts): " ++ line)),
          [])
  end.
Proof.
  unfold _parse_regular_rule, fields.
  destruct (stripped_nonempty (split "," line)) as [|a [|b [|c l]]]; try reflexivity.
  unfold item. cbn [List.length Nat.ltb Nat.leb nth].
  unfold RuleType_call. rewrite final_action_of_returns.
  destruct (RuleType.of_value (upper a)); [|reflexivity].
  destruct l; reflexivity.
Qed.


(* ================================================================== *)
(** ** Facts about strings *)
(* ================================================================== *)

Lemma sapp_nil_r s : s ++ "" = s.
Proof. induction s; simpl; congruence. Qed.

Lemma sapp_assoc a b c : (a ++ b) ++ c = a ++ (b ++ c).
Proof. induction a; simpl; congruence. Qed.




(* ================================================================== *)
(** ** Facts about the matcher *)
(* ================================================================== *)

Module ReFacts.
Import Re.







End ReFacts.



(* ================================================================== *)
(** ** The Logic path in closed form *)
(* ================================================================== *)



(* ================================================================== *)
(** ** The scan of [_parse_logic_conditions], group by group *)
(* ================================================================== *)

Lemma bind_ret_l {A B} (a : A) (f : A -> M B) : bind (ret a) f = f a.
Proof. unfold bind, ret. now destruct (f a). Qed.


Lemma paren_free_cons c s :
  paren_free (String c s) = true ->
  Ascii.eqb c "(" = false /\ Ascii.eqb c ")" = false /\ paren_free s = true.
Proof.
  unfold paren_free, is_paren. simpl.
  destruct (Ascii.eqb c "("), (Ascii.eqb c ")"); simpl; intros H;
    try discriminate; auto.
Qed.

Lemma scan_char_outside cs conds c :
  Ascii.eqb c "(" = false -> Ascii.eqb c ")" = false ->
  scan_char cs {| conditions := conds; stack := []; current := "" |} c
  = ret {| conditions := conds; stack := []; current := "" |}.
Proof. intros H1 H2. unfold scan_char. now rewrite H1, H2. Qed.

Lemma scan_char_inside cs conds cur c :
  Ascii.eqb c "(" = false -> Ascii.eqb c ")" = false ->
  scan_char cs {| conditions := conds; stack := ["("%char]; current := cur |} c
  = ret {| conditions := conds; stack := ["("%char];
           current := add_char cur c |}.
Proof. intros H1 H2. unfold scan_char. now rewrite H1, H2. Qed.

Lemma scan_char_open cs conds :
  scan_char cs {| conditions := conds; stack := []; current := "" |} "("
  = ret {| conditions := conds; stack := ["("%char]; current := "" |}.
Proof. reflexivity. Qed.

Lemma scan_char_close cs conds cur :
  scan_char cs {| conditions := conds; stack := ["("%char]; current := cur |}
    ")"
  = (Ok {| conditions := (conds ++ kept_of cur)%list;
           stack := []; current := "" |},
     printed (_parse_single_condition cur)).
Proof.
  unfold scan_char, kept_of, printed.
  cbn [Ascii.eqb Bool.eqb stack conditions current removelast].
  destruct (_parse_single_condition_returns cur) as (o & lg & E).
  rewrite E. destruct o; simpl; now rewrite ?app_nil_r.
Qed.

(** Outside any group, text without parentheses is skipped. *)
Lemma scan_loop_outside cs sep rest conds :
  paren_free sep = true ->
  scan_loop cs (sep ++ rest)
    {| conditions := conds; stack := []; current := "" |}
  = scan_loop cs rest {| conditions := conds; stack := []; current := "" |}.
Proof.
  induction sep as [|c sep IH]; intros Hp; [reflexivity|].
  apply paren_free_cons in Hp. destruct Hp as (H1 & H2 & Hp).
  cbn [append scan_loop]. rewrite (scan_char_outside _ _ _ H1 H2), bind_ret_l.
  now apply IH.
Qed.

Lemma removelast_repeat (x : ascii) n :
  removelast (x :: repeat x n) = repeat x n.
Proof.
  induction n as [|n IH]; [reflexivity|].
  change (removelast (x :: repeat x (S n)))
    with (x :: removelast (x :: repeat x n)).
  now rewrite IH.
Qed.

Lemma scan_char_nested_open cs conds d cur :
  scan_char cs {| conditions := conds;
                  stack := "("%char :: repeat "("%char d;
                  current := cur |} "("
  = ret {| conditions := conds;
           stack := "("%char :: repeat "("%char (S d);
           current := add_char cur "(" |}.
Proof.
  unfold scan_char. cbn [Ascii.eqb Bool.eqb stack conditions current].
  do 3 f_equal. rewrite <- app_comm_cons. f_equal.
  change (repeat "("%char d ++ ["("%char])%list
    with (repeat "("%char d ++ repeat "("%char 1)%list.
  rewrite <- repeat_app. f_equal. lia.
Qed.

Lemma scan_char_nested_close cs conds d cur :
  scan_char cs {| conditions := conds;
                  stack := "("%char :: repeat "("%char (S d);
                  current := cur |} ")"
  = ret {| conditions := conds;
           stack := "("%char :: repeat "("%char d;
           current := add_char cur ")" |}.
Proof.
  unfold scan_char. cbn [Ascii.eqb Bool.eqb stack conditions current].
  change (removelast ("("%char :: repeat "("%char (S d)))
    with ("("%char :: removelast ("("%char :: repeat "("%char d)).
  now rewrite removelast_repeat.
Qed.

Lemma scan_char_nested_other cs conds d cur c :
  Ascii.eqb c "(" = false -> Ascii.eqb c ")" = false ->
  scan_char cs {| conditions := conds;
                  stack := "("%char :: repeat "("%char d;
                  current := cur |} c
  = ret {| conditions := conds;
           stack := "("%char :: repeat "("%char d;
           current := add_char cur c |}.
Proof. intros H1 H2. unfold scan_char. now rewrite H1, H2. Qed.

(** Inside a top-level group, text with balanced parentheses is
    accumulated, parentheses included. *)
Lemma scan_loop_inside cs g rest conds :
  forall d cur,
  balanced_from d g = true ->
  scan_loop cs (g ++ rest)
    {| conditions := conds; stack := "("%char :: repeat "("%char d;
       current := cur |}
  = scan_loop cs rest
      {| conditions := conds; stack := ["("%char]; current := cur ++ g |}.
Proof.
  induction g as [|c g IH]; intros d cur Hb.
  - simpl in Hb. apply Nat.eqb_eq in Hb. subst d. simpl.
    now rewrite sapp_nil_r.
  - cbn [balanced_from] in Hb. cbn [append scan_loop].
    destruct (Ascii.eqb c "(") eqn:E1.
    + apply Ascii.eqb_eq in E1. subst c.
      rewrite scan_char_nested_open, bind_ret_l, (IH _ _ Hb).
      unfold add_char. now rewrite sapp_assoc.
    + destruct (Ascii.eqb c ")") eqn:E2.
      * apply Ascii.eqb_eq in E2. subst c.
        destruct d as [|d]; [discriminate|].
        rewrite scan_char_nested_close, bind_ret_l, (IH _ _ Hb).
        unfold add_char. now rewrite sapp_assoc.
      * rewrite (scan_char_nested_other _ _ _ _ _ E1 E2), bind_ret_l.
        rewrite (IH _ _ Hb). unfold add_char. now rewrite sapp_assoc.
Qed.



(** A whole top-level group: its text goes to [_parse_single_condition],
    and the scan goes on with the rule added, or with the list unchanged. *)
Lemma scan_loop_group cs g rest conds :
  balanced g = true ->
  scan_loop cs ("(" ++ g ++ ")" ++ rest)
    {| conditions := conds; stack := []; current := "" |}
  = let m := scan_loop cs rest
               {| conditions := (conds ++ kept_of g)%list;
                  stack := []; current := "" |} in
    (fst m, (printed (_parse_single_condition g) ++ snd m)%list).
Proof.
  intros Hp.
  change ("(" ++ g ++ ")" ++ rest) with (String "(" (g ++ String ")" rest)).
  cbn [scan_loop]. rewrite scan_char_open, bind_ret_l.
  rewrite (scan_loop_inside _ _ _ _ 0 "" Hp).
  cbn [scan_loop append]. rewrite scan_char_close.
  cbn [bind]. now destruct (scan_loop cs rest _).
Qed.



(* ================================================================== *)
(** ** The two entry points in terms of the path parsers *)
(* ================================================================== *)

Lemma parse_rule_line_eq line :
  parse_rule_line (PStr line) =
  let s := strip line in
  if negb (truthy s) then ret None
  else try_catch (parse_on (dispatch s) s)
         (fun e => print ("Error parsing rule '" ++ s ++ "': " ++ exn_str e) ;;;
                   ret None).
Proof.
  unfold parse_rule_line, dispatch, parse_on. cbv zeta.
  destruct (negb (truthy (strip line))); [reflexivity|].
  destruct (startswith_any (strip line) _); [reflexivity|].
  now destruct (startswith (upper (strip line)) "MATCH,").
Qed.

Lemma parse_rule_dict_eq d :
  parse_rule_dict (PDict d) =
  match dict_line d with
  | Some (p, raw_rule) =>
      try_catch (parse_on p raw_rule)
        (fun e => emit (PrintedDictError d (exn_str e)) ;;; ret None)
  | None => (Ok None, printed (parse_rule_dict (PDict d)))
  end.
Proof.
  unfold parse_rule_dict, dict_line, parse_on, printed. cbv zeta.
  destruct (negb (truthy (upper (get_str (d_type d))))); [reflexivity|].
  destruct (existsb _ _).
  - destruct (d_conditions d) as [[l|t]|]; try reflexivity;
      destruct (negb (truthy _)); reflexivity.
  - destruct (String.eqb _ "MATCH").
    + destruct (negb (truthy (get_str (d_action d)))); reflexivity.
    + destruct (negb (truthy (get_str (d_payload d)))); [reflexivity|].
      destruct (d_additional_params d) as [[[|q l]|]|]; reflexivity.
Qed.

Lemma value_of_try_catch (m : M (option Rule)) h :
  (forall e, exists l, h e = (Ok None, l)) ->
  value_of (try_catch m h) = value_of m.
Proof.
  intros Hh. destruct m as [[v|e] l]; [reflexivity|].
  unfold value_of. simpl. destruct (Hh e) as [l' ->]. reflexivity.
Qed.



Lemma dict_handler_none d e :
  exists l,
    (emit (PrintedDictError d (exn_str e)) ;;; ret None) = (Ok (@None Rule), l).
Proof. eexists. reflexivity. Qed.










(* ================================================================== *)
(** ** Whitespace, [strip] and [split] *)
(* ================================================================== *)

Lemma all_chars_app p a b :
  all_chars p (a ++ b) = all_chars p a && all_chars p b.
Proof.
  induction a as [|c a IH]; simpl; [reflexivity|].
  now rewrite IH, andb_assoc.
Qed.

Lemma all_chars_impl (p q : ascii -> bool) s :
  (forall c, p c = true -> q c = true) ->
  all_chars p s = true -> all_chars q s = true.
Proof.
  intros Hpq. induction s as [|c s IH]; simpl; [reflexivity|].
  intros H. apply andb_prop in H. destruct H as [Hc Hs].
  now rewrite (Hpq _ Hc), IH.
Qed.

Lemma is_delim_not_space c : is_delim c = true -> isspace c = false.
Proof.
  unfold is_delim. intros H.
  apply orb_prop in H. destruct H as [H|H];
    [apply orb_prop in H; destruct H as [H|H]|];
    apply Ascii.eqb_eq in H; subst c; reflexivity.
Qed.

Lemma isspace_not_delim c : isspace c = true -> is_delim c = false.
Proof.
  intros H. destruct (is_delim c) eqn:E; [|reflexivity].
  apply is_delim_not_space in E. congruence.
Qed.


Lemma is_ws_app a b : is_ws (a ++ b) = is_ws a && is_ws b.
Proof. apply all_chars_app. Qed.

Lemma lstrip_ws_app w s : is_ws w = true -> lstrip (w ++ s) = lstrip s.
Proof.
  induction w as [|c w IH]; simpl; [reflexivity|].
  intros H. apply andb_prop in H. destruct H as [Hc Hw].
  rewrite Hc. now apply IH.
Qed.

Lemma rstrip_ws w : is_ws w = true -> rstrip w = "".
Proof.
  induction w as [|c w IH]; simpl; [reflexivity|].
  intros H. apply andb_prop in H. destruct H as [Hc Hw].
  now rewrite (IH Hw), Hc.
Qed.

Lemma rstrip_app_ws s w : is_ws w = true -> rstrip (s ++ w) = rstrip s.
Proof.
  intros Hw. induction s as [|c s IH]; simpl.
  - now apply rstrip_ws.
  - now rewrite IH.
Qed.

Lemma rstrip_nonempty_app a b :
  rstrip b <> "" -> rstrip (a ++ b) = a ++ rstrip b.
Proof.
  intros Hb. induction a as [|c a IH]; simpl; [reflexivity|].
  rewrite IH. destruct (a ++ rstrip b) eqn:E; [|reflexivity].
  destruct a; simpl in E; [contradiction|discriminate].
Qed.


Lemma rstrip_decompose s : exists w, is_ws w = true /\ s = rstrip s ++ w.
Proof.
  induction s as [|c s (w & Hw & E)]; simpl.
  - now exists "".
  - destruct (rstrip s) as [|d r] eqn:Er.
    + destruct (isspace c) eqn:Ec.
      * exists (String c s). split; [|reflexivity].
        simpl in E. subst w. unfold is_ws. simpl. now rewrite Ec.
      * exists s. split; [|reflexivity]. simpl in E. now subst w.
    + exists w. split; [assumption|]. simpl. simpl in E. congruence.
Qed.

Lemma lstrip_decompose s : exists w, is_ws w = true /\ s = w ++ lstrip s.
Proof.
  induction s as [|c s (w & Hw & E)]; simpl.
  - now exists "".
  - destruct (isspace c) eqn:Ec.
    + exists (String c w). split.
      * unfold is_ws. simpl. now rewrite Ec.
      * simpl. congruence.
    + now exists "".
Qed.

Lemma strip_ws w : is_ws w = true -> strip w = "".
Proof. intros H. unfold strip. now rewrite rstrip_ws. Qed.






(* -- split -- *)

Lemma split_not_nil sep s : split sep s <> [].
Proof.
  destruct s as [|c s]; simpl; [discriminate|].
  destruct (Ascii.eqb c sep); [discriminate|].
  destruct (split sep s); discriminate.
Qed.

Lemma split_comma_free a : comma_free a = true -> split "," a = [a].
Proof.
  induction a as [|c a IH]; simpl; [reflexivity|].
  intros H. apply andb_prop in H. destruct H as [Hc Ha].
  apply negb_true_iff in Hc. rewrite Hc, (IH Ha). reflexivity.
Qed.





(** Whitespace before or after a line does not change its fields. *)
Lemma ws_comma_free w : is_ws w = true -> comma_free w = true.
Proof.
  apply all_chars_impl. intros c H. apply isspace_not_delim in H.
  unfold is_delim in H. now destruct (Ascii.eqb c ",").
Qed.


Lemma strip_ws_prefix w h : is_ws w = true -> strip (w ++ h) = strip h.
Proof.
  intros Hw. unfold strip.
  destruct (rstrip h) as [|c r] eqn:E.
  - destruct (rstrip_decompose h) as (v & Hv & Eh). rewrite E in Eh.
    simpl in Eh. subst v. rewrite rstrip_ws; [reflexivity|].
    now rewrite is_ws_app, Hw, Hv.
  - rewrite rstrip_nonempty_app by (rewrite E; discriminate).
    rewrite E. now apply lstrip_ws_app.
Qed.







(* ================================================================== *)
(** ** Fields, blanks and the canonical form *)
(* ================================================================== *)




















(* ================================================================== *)
(** ** What [parse_rule_line] returns on each path *)
(* ================================================================== *)









(* ================================================================== *)
(** ** Round trip of simple and match lines *)
(* ================================================================== *)





(* ================================================================== *)
(** ** Running [logic_rule_re] on a logic line *)
(* ================================================================== *)

Module RunFacts.
Import Re.











End RunFacts.

Lemma ws_all_space w : is_ws w = true -> all_chars (Re.cmatch Re.CSpace) w = true.
Proof. auto. Qed.






(* ================================================================== *)
(** ** The conditions of a logic line *)
(* ================================================================== *)






















(* ================================================================== *)
(** ** Round trip of logic lines *)
(* ================================================================== *)














(* ================================================================== *)
(** ** Kinds of the rules the Simple path builds *)
(* ================================================================== *)






(* ================================================================== *)
(** ** Worked lines *)
(* ================================================================== *)

(** C4. ["AND,((DOMAIN,ad.com),(NETWORK,UDP)),REJECT"] parses to a
    [LogicRule] of kind AND whose conditions are the two [ClashRule]s
    (DOMAIN, "ad.com") and (NETWORK, "UDP"), in that order, and whose
    action is the built-in REJECT; nothing is printed. *)
Theorem parse_and_two_conditions :
  parse_rule_line (PStr "AND,((DOMAIN,ad.com),(NETWORK,UDP)),REJECT")
  = (Ok (Some (RLogic
       (LogicRule.Build RuleType.AND
          [inl (ClashRule.Build RuleType.DOMAIN "ad.com" (ActionStr "") []
                  "DOMAIN,ad.com" 0);
           inl (ClashRule.Build RuleType.NETWORK "UDP" (ActionStr "") []
                  "NETWORK,UDP" 0)]
          (ActionEnum Action.REJECT)
          "AND,((DOMAIN,ad.com),(NETWORK,UDP)),REJECT" 0))),
     []).
Proof. vm_compute. reflexivity. Qed.

(* ================================================================== *)
(** ** Lenient decomposition *)
(* ================================================================== *)




(* ================================================================== *)
(** ** Conditions of parsed logic rules *)
(* ================================================================== *)





(* ================================================================== *)
(** ** Failures of the Simple and Match paths *)
(* ================================================================== *)





(* ================================================================== *)
(** ** Resolution of the action field *)
(* ================================================================== *)



(* ================================================================== *)
(** ** The dictionary adapter against the line parser *)
(* ================================================================== *)






(* ================================================================== *)
(** ** Round trip *)
(* ================================================================== *)





(* ================================================================== *)
(** ** Further facts about the line parser *)
(* ================================================================== *)

Lemma rstrip_idem s : rstrip (rstrip s) = rstrip s.
Proof.
  induction s as [|c s IH]; [reflexivity|]. cbn [rstrip].
  destruct (rstrip s) as [|d r] eqn:E.
  - destruct (isspace c) eqn:Ec; [reflexivity|].
    cbn [rstrip]. now rewrite Ec.
  - change (rstrip (String c (String d r)))
      with (match rstrip (String d r) with
            | "" => if isspace c then "" else String c ""
            | String a b => String c (String a b)
            end).
    now rewrite IH.
Qed.

Lemma sapp_cancel_l w a b : w ++ a = w ++ b -> a = b.
Proof.
  induction w as [|c w IH]; simpl; [auto|].
  intros H. inversion H. auto.
Qed.

Lemma rstrip_lstrip_fixed x : rstrip x = x -> rstrip (lstrip x) = lstrip x.
Proof.
  intros Hx. destruct (lstrip_decompose x) as (w & Hw & E).
  destruct (rstrip (lstrip x)) as [|c r] eqn:Er.
  - destruct (rstrip_decompose (lstrip x)) as (v & Hv & Ev).
    rewrite Er in Ev. simpl in Ev.
    assert (Hws : is_ws x = true).
    { rewrite E, is_ws_app, Hw. now rewrite Ev, Hv. }
    rewrite (rstrip_ws _ Hws) in Hx. now rewrite <- Hx.
  - assert (H : rstrip (w ++ lstrip x) = w ++ rstrip (lstrip x)).
    { apply rstrip_nonempty_app. rewrite Er. discriminate. }
    rewrite <- E, Hx in H. rewrite E in H at 1.
    apply sapp_cancel_l in H. now rewrite Er in H.
Qed.

Lemma lstrip_idem s : lstrip (lstrip s) = lstrip s.
Proof.
  induction s as [|c s IH]; [reflexivity|]. cbn [lstrip].
  destruct (isspace c) eqn:Ec; [assumption|].
  cbn [lstrip]. now rewrite Ec.
Qed.

Lemma strip_idem s : strip (strip s) = strip s.
Proof.
  unfold strip. rewrite (rstrip_lstrip_fixed _ (rstrip_idem s)).
  apply lstrip_idem.
Qed.

Lemma strip_ws_around l s r :
  is_ws l = true -> is_ws r = true -> strip (l ++ s ++ r) = strip s.
Proof.
  intros Hl Hr. rewrite <- sapp_assoc.
  unfold strip at 1. rewrite (rstrip_app_ws _ _ Hr).
  fold (strip (l ++ s)). now apply strip_ws_prefix.
Qed.

(** X1. A line that is empty or made of whitespace gives [None] from both
    entry points, and nothing is printed for it. *)
Theorem blank_line_is_skipped s :
  is_ws s = true ->
  parse_rule_line (PStr s) = (Ok None, []) /\
  parse_rule_dict (PStr s) = (Ok None, []).
Proof.
  intros H.
  assert (E : parse_rule_line (PStr s) = (Ok None, [])).
  { rewrite parse_rule_line_eq. cbv zeta. now rewrite (strip_ws _ H). }
  split; exact E.
Qed.

Lemma blank_line_is_skipped_witness :
  parse_rule_line (PStr (String " " (String "009" (String "010" ""))))
  = (Ok None, []).
Proof.
  apply (blank_line_is_skipped (String " " (String "009" (String "010" "")))).
  reflexivity.
Defined.

(** X2. [parse_rule_line] sees a line through [strip] only: whitespace
    added before or after a line changes neither the rule returned nor
    what is printed, and parsing the trimmed line again gives the same. *)
Theorem surrounding_whitespace_is_ignored l s r :
  is_ws l = true -> is_ws r = true ->
  parse_rule_line (PStr (l ++ s ++ r)) = parse_rule_line (PStr s) /\
  parse_rule_line (PStr (strip s)) = parse_rule_line (PStr s).
Proof.
  intros Hl Hr. rewrite !parse_rule_line_eq. cbv zeta.
  now rewrite (strip_ws_around _ _ _ Hl Hr), strip_idem.
Qed.

Lemma surrounding_whitespace_is_ignored_witness :
  parse_rule_line (PStr ("  " ++ "DOMAIN,x.com,DIRECT" ++ " "))
  = parse_rule_line (PStr "DOMAIN,x.com,DIRECT").
Proof.
  apply (surrounding_whitespace_is_ignored "  " "DOMAIN,x.com,DIRECT" " ");
    reflexivity.
Defined.




(* ------------------------------------------------------------------ *)
(** *** Empty fields *)

Lemma split_app a b :
  split "," (a ++ "," ++ b) = (split "," a ++ split "," b)%list.
Proof.
  induction a as [|c a IH]; [reflexivity|].
  cbn [append split]. destruct (Ascii.eqb c ",").
  - cbn [app]. f_equal. exact IH.
  - change (String "," b) with ("," ++ b). rewrite IH.
    destruct (split "," a) as [|h t] eqn:E; [now apply split_not_nil in E|].
    reflexivity.
Qed.

Lemma fields_app a b : fields (a ++ "," ++ b) = (fields a ++ fields b)%list.
Proof.
  unfold fields, stripped_nonempty.
  now rewrite split_app, map_app, filter_app.
Qed.

Lemma fields_ws w : is_ws w = true -> fields w = [].
Proof.
  intros H. unfold fields, stripped_nonempty.
  rewrite (split_comma_free _ (ws_comma_free _ H)). cbn [map filter].
  now rewrite (strip_ws _ H).
Qed.

Lemma fields_blank_between a w b :
  is_ws w = true -> fields (a ++ "," ++ w ++ "," ++ b) = fields (a ++ "," ++ b).
Proof.
  intros H. rewrite (fields_app a), (fields_app w), (fields_ws _ H).
  now rewrite (fields_app a b).
Qed.

Lemma _parse_regular_rule_core x y :
  fields x = fields y ->
  option_map clash_core (ok_value (_parse_regular_rule x))
  = option_map clash_core (ok_value (_parse_regular_rule y)).
Proof.
  intros H. rewrite !_parse_regular_rule_eq, H.
  destruct (fields y) as [|a [|b [|c rest]]]; try reflexivity.
  now destruct (RuleType.of_value (upper a)).
Qed.

Lemma _parse_match_rule_core x y :
  fields x = fields y ->
  option_map match_core (ok_value (_parse_match_rule x))
  = option_map match_core (ok_value (_parse_match_rule y)).
Proof.
  intros H. rewrite !_parse_match_rule_eq, H.
  now destruct (fields y) as [|a [|b [|c rest]]].
Qed.

(** X4. On the Simple and the Match path an empty or blank field between
    two commas is not a field: the line with it and the line without it
    give rules with the same kind, payload, action and qualifiers (or both
    fail). *)
Theorem blank_fields_are_skipped a w b :
  is_ws w = true ->
  option_map clash_core
    (ok_value (_parse_regular_rule (a ++ "," ++ w ++ "," ++ b)))
  = option_map clash_core (ok_value (_parse_regular_rule (a ++ "," ++ b)))
  /\
  option_map match_core
    (ok_value (_parse_match_rule (a ++ "," ++ w ++ "," ++ b)))
  = option_map match_core (ok_value (_parse_match_rule (a ++ "," ++ b))).
Proof.
  intros H. split.
  - apply _parse_regular_rule_core. now apply fields_blank_between.
  - apply _parse_match_rule_core. now apply fields_blank_between.
Qed.

Lemma blank_fields_are_skipped_witness :
  option_map clash_core (ok_value (_parse_regular_rule "DOMAIN, ,x.com,DIRECT"))
  = Some (RuleType.DOMAIN, "x.com", ActionEnum Action.DIRECT, []).
Proof.
  destruct (blank_fields_are_skipped "DOMAIN" " " "x.com,DIRECT" eq_refl)
    as [H _].
  exact H.
Defined.



(* ------------------------------------------------------------------ *)
(** *** What a match of the logic pattern says about the line *)

Module MatchInv.
Import Re.






End MatchInv.





(* ------------------------------------------------------------------ *)
(** *** The decomposer on any layout of parentheses *)

Lemma scan_loop_stray cs rest conds :
  scan_loop cs (String ")" rest)
    {| conditions := conds; stack := []; current := "" |}
  = let m := scan_loop cs rest
               {| conditions := conds; stack := []; current := "" |} in
    (fst m,
     Printed ("Unmatched closing parenthesis in conditions: " ++ cs) :: snd m).
Proof.
  cbn [scan_loop]. unfold scan_char.
  cbn [Ascii.eqb Bool.eqb stack]. cbn [bind print ret app].
  now destruct (scan_loop cs rest _).
Qed.

(** A group that is never closed leaves the conditions as they are. *)
Lemma scan_loop_unclosed cs g conds :
  forall d cur,
    stays_open d g = true ->
    exists st,
      scan_loop cs g {| conditions := conds;
                        stack := "("%char :: repeat "("%char d;
                        current := cur |}
      = (Ok st, []) /\ conditions st = conds.
Proof.
  induction g as [|c g IH]; intros d cur H.
  - eexists. split; reflexivity.
  - cbn [stays_open] in H. cbn [scan_loop].
    destruct (Ascii.eqb c "(") eqn:E1.
    + apply Ascii.eqb_eq in E1. subst c.
      rewrite scan_char_nested_open, bind_ret_l. now apply IH.
    + destruct (Ascii.eqb c ")") eqn:E2.
      * apply Ascii.eqb_eq in E2. subst c.
        destruct d as [|d]; [discriminate|].
        rewrite scan_char_nested_close, bind_ret_l. now apply IH.
      * rewrite (scan_char_nested_other _ _ _ _ _ E1 E2), bind_ret_l.
        now apply IH.
Qed.

Lemma scan_loop_open_tail cs unclosed conds :
  wf_open unclosed = true ->
  exists st,
    scan_loop cs (open_text unclosed)
      {| conditions := conds; stack := []; current := "" |}
    = (Ok st, []) /\ conditions st = conds.
Proof.
  destruct unclosed as [g|]; intros H.
  - cbn [open_text append scan_loop]. rewrite scan_char_open, bind_ret_l.
    apply (scan_loop_unclosed cs g conds 0 "" H).
  - eexists. split; reflexivity.
Qed.

Lemma scan_loop_items cs items unclosed :
  forallb wf_item items = true -> wf_open unclosed = true ->
  forall conds,
  exists st,
    scan_loop cs (items_text items ++ open_text unclosed)
      {| conditions := conds; stack := []; current := "" |}
    = (Ok st, items_log cs items) /\
    conditions st = (conds ++ items_rules items)%list.
Proof.
  intros Hi Ho. induction items as [|i items IH]; intros conds.
  - cbn [items_text map String.concat append items_log items_rules flat_map].
    destruct (scan_loop_open_tail cs unclosed conds Ho) as (st & E & Hc).
    exists st. split; [exact E|]. now rewrite app_nil_r.
  - cbn [forallb] in Hi. apply andb_prop in Hi. destruct Hi as [Hw Hi].
    assert (Et : items_text (i :: items) ++ open_text unclosed
                 = item_text i ++ (items_text items ++ open_text unclosed)).
    { unfold items_text. cbn [map]. destruct (map item_text items) eqn:Em.
      - reflexivity.
      - cbn [String.concat]. cbn [append]. now rewrite sapp_assoc. }
    rewrite Et. cbn [items_log items_rules flat_map].
    destruct i as [g|s|]; cbn [wf_item item_text] in *.
    + destruct (IH Hi (conds ++ kept_of g)%list) as (st & E & Hc).
      exists st.
      rewrite !sapp_assoc.
      rewrite (scan_loop_group _ _ _ _ Hw). cbv zeta. rewrite E.
      cbn [fst snd]. split; [reflexivity|]. now rewrite Hc, app_assoc.
    + destruct (IH Hi conds) as (st & E & Hc).
      exists st. rewrite (scan_loop_outside _ _ _ _ Hw). now split.
    + destruct (IH Hi conds) as (st & E & Hc).
      exists st. cbn [append]. rewrite scan_loop_stray. cbv zeta. rewrite E.
      now split.
Qed.

(** X7. On a body of any shape the decomposer reads the groups at nesting
    depth 0 and nothing else: each group with balanced parentheses goes,
    with its inner parentheses, to [_parse_single_condition]; text outside
    the groups is dropped; a closing parenthesis that closes nothing is
    reported with one printed line and skipped; a last group that is never
    closed is dropped without a word. *)
Theorem decomposer_reads_top_level_groups items unclosed :
  forallb wf_item items = true -> wf_open unclosed = true ->
  _parse_logic_conditions (items_text items ++ open_text unclosed)
  = (Ok (items_rules items),
     items_log (items_text items ++ open_text unclosed) items).
Proof.
  intros Hi Ho. unfold _parse_logic_conditions.
  destruct (scan_loop_items (items_text items ++ open_text unclosed)
              items unclosed Hi Ho []) as (st & E & Hc).
  rewrite E. cbn [bind ret]. rewrite Hc, app_nil_r. reflexivity.
Qed.

Lemma decomposer_reads_top_level_groups_witness :
  _parse_logic_conditions "(DOMAIN,a.com)) x (NETWORK,UDP),(DOMAIN,(b)"
  = (Ok [ClashRule.Build RuleType.DOMAIN "a.com" (ActionStr "") []
           "DOMAIN,a.com" 0;
         ClashRule.Build RuleType.NETWORK "UDP" (ActionStr "") []
           "NETWORK,UDP" 0],
     [Printed ("Unmatched closing parenthesis in conditions: "
                 ++ "(DOMAIN,a.com)) x (NETWORK,UDP),(DOMAIN,(b)")]).
Proof.
  apply (decomposer_reads_top_level_groups
           [IGroup "DOMAIN,a.com"; IStray; IText " x ";
            IGroup "NETWORK,UDP"; IText ","]
           (Some "DOMAIN,(b)")); reflexivity.
Defined.

(* ------------------------------------------------------------------ *)
(** *** Number of conditions of a logic rule *)




(* ------------------------------------------------------------------ *)
(** *** The condition string as a key *)

Lemma comma_split_unique k1 : forall k2 p1 p2,
  comma_free k1 = true -> comma_free k2 = true ->
  k1 ++ "," ++ p1 = k2 ++ "," ++ p2 -> k1 = k2 /\ p1 = p2.
Proof.
  induction k1 as [|c k1 IH]; intros [|d k2] p1 p2 H1 H2 E; simpl in *.
  - inversion E. auto.
  - inversion E; subst d. discriminate.
  - inversion E; subst c. discriminate.
  - apply andb_prop in H1. destruct H1 as [_ H1].
    apply andb_prop in H2. destruct H2 as [_ H2].
    inversion E; subst d.
    destruct (IH k2 p1 p2 H1 H2) as [-> ->]; auto.
Qed.

Lemma kind_value_comma_free k : comma_free (RuleType.value k) = true.
Proof. now destruct k. Qed.

Lemma kind_value_inj k1 k2 : RuleType.value k1 = RuleType.value k2 -> k1 = k2.
Proof.
  intros H. apply (f_equal RuleType.of_value) in H.
  rewrite !RuleType_of_value_value in H. now inversion H.
Qed.

(** X9. [ClashRule.condition_string] tells rules apart by kind and
    payload, and by nothing else: two rules have the same condition string
    exactly when they have the same kind and the same payload, whatever
    commas the payloads contain. *)
Theorem condition_string_is_kind_and_payload r1 r2 :
  ClashRule.condition_string r1 = ClashRule.condition_string r2 <->
  ClashRule.rule_type r1 = ClashRule.rule_type r2 /\
  ClashRule.payload r1 = ClashRule.payload r2.
Proof.
  unfold ClashRule.condition_string. split.
  - intros E. apply comma_split_unique in E;
      try apply kind_value_comma_free.
    destruct E as [Ek Ep]. split; [now apply kind_value_inj|assumption].
  - intros [-> ->]. reflexivity.
Qed.

(* ================================================================== *)
(** ** Further facts about the dictionary adapter *)
(* ================================================================== *)



Lemma dict_line_with_type d t t' :
  d_type d = Some t -> upper t' = upper t ->
  dict_line (with_type d t') = dict_line d.
Proof.
  intros Ht Hu. unfold dict_line, with_type.
  cbn [d_type d_payload d_action d_additional_params d_conditions].
  rewrite Ht. cbn [get_str]. now rewrite Hu.
Qed.

Lemma value_of_parse_rule_dict d :
  value_of (parse_rule_dict (PDict d))
  = match dict_line d with
    | Some (p, raw_rule) => value_of (parse_on p raw_rule)
    | None => None
    end.
Proof.
  rewrite parse_rule_dict_eq. destruct (dict_line d) as [[p raw]|].
  - apply value_of_try_catch. intros e. apply dict_handler_none.
  - reflexivity.
Qed.

(** X11. In a dictionary the type is read in upper case: two dictionaries
    that differ only in the case of the letters of ["type"] give the same
    rule. (A line is different: there the keywords AND, OR and NOT are
    recognised in upper case only.) *)
Theorem dict_type_is_case_insensitive d t t' :
  d_type d = Some t -> upper t' = upper t ->
  value_of (parse_rule_dict (PDict (with_type d t')))
  = value_of (parse_rule_dict (PDict d)).
Proof.
  intros Ht Hu.
  now rewrite !value_of_parse_rule_dict, (dict_line_with_type _ _ _ Ht Hu).
Qed.

Lemma dict_type_is_case_insensitive_witness :
  value_of (parse_rule_dict
              (PDict {| d_type := Some "And"; d_payload := None;
                        d_action := Some "REJECT";
                        d_additional_params := None;
                        d_conditions :=
                          Some (CondsList
                                  [CondDict (Some "DOMAIN") (Some "ad.com")])
                     |}))
  = value_of (parse_rule_dict
                (PDict {| d_type := Some "AND"; d_payload := None;
                          d_action := Some "REJECT";
                          d_additional_params := None;
                          d_conditions :=
                            Some (CondsList
                                    [CondDict (Some "DOMAIN") (Some "ad.com")])
                       |})).
Proof.
  apply (dict_type_is_case_insensitive
           {| d_type := Some "AND"; d_payload := None;
              d_action := Some "REJECT"; d_additional_params := None;
              d_conditions :=
                Some (CondsList [CondDict (Some "DOMAIN") (Some "ad.com")]) |}
           "AND" "And"); reflexivity.
Defined.

(* ------------------------------------------------------------------ *)
(** *** From a dictionary of fields to the rule *)




(* ------------------------------------------------------------------ *)
(** *** Entries of ["conditions"] that add nothing *)

Lemma fold_cond_text l :
  forall acc,
    fold_left (fun acc cond => acc ++ cond_text cond) l acc
    = acc ++ fold_left (fun acc cond => acc ++ cond_text cond) l "".
Proof.
  induction l as [|c l IH]; intros acc; cbn [fold_left].
  - now rewrite sapp_nil_r.
  - rewrite IH, (IH ("" ++ cond_text c)). cbn [append].
    now rewrite sapp_assoc.
Qed.

Lemma fold_cond_text_filter l :
  fold_left (fun acc cond => acc ++ cond_text cond)
    (filter cond_usable l) ""
  = fold_left (fun acc cond => acc ++ cond_text cond) l "".
Proof.
  induction l as [|c l IH]; [reflexivity|].
  cbn [filter fold_left]. unfold cond_usable at 1.
  destruct (cond_text c) as [|a s] eqn:E; cbn [truthy].
  - exact IH.
  - cbn [fold_left]. rewrite E.
    rewrite fold_cond_text, (fold_cond_text l ("" ++ String a s)).
    now rewrite IH.
Qed.

(** X13. In the ["conditions"] list only the entries that add text count:
    an entry that is neither a dictionary nor a string, a dictionary
    without a type or without a payload, and an empty string are passed
    over without a word, and the rule is the one of the list without
    them. *)
Theorem unusable_conditions_are_passed_over d l :
  d_conditions d = Some (CondsList l) ->
  value_of (parse_rule_dict (PDict (with_conditions d (filter cond_usable l))))
  = value_of (parse_rule_dict (PDict d)).
Proof.
  intros Hc. rewrite !value_of_parse_rule_dict.
  replace (dict_line (with_conditions d (filter cond_usable l)))
    with (dict_line d); [reflexivity|].
  unfold dict_line, with_conditions.
  cbn [d_type d_payload d_action d_additional_params d_conditions].
  rewrite Hc. now rewrite fold_cond_text_filter.
Qed.

Lemma unusable_conditions_are_passed_over_witness :
  value_of (parse_rule_dict
              (PDict (with_conditions
                        {| d_type := Some "OR"; d_payload := None;
                           d_action := Some "Proxy";
                           d_additional_params := None;
                           d_conditions :=
                             Some (CondsList
                                     [CondDict (Some "DOMAIN") (Some "a.com");
                                      CondOther;
                                      CondDict (Some "NETWORK") None;
                                      CondStr "(DOMAIN,b.com)"]) |}
                        (filter cond_usable
                           [CondDict (Some "DOMAIN") (Some "a.com");
                            CondOther;
                            CondDict (Some "NETWORK") None;
                            CondStr "(DOMAIN,b.com)"]))))
  = value_of (parse_rule_dict
                (PDict {| d_type := Some "OR"; d_payload := None;
                          d_action := Some "Proxy";
                          d_additional_params := None;
                          d_conditions :=
                            Some (CondsList
                                    [CondDict (Some "DOMAIN") (Some "a.com");
                                     CondOther;
                                     CondDict (Some "NETWORK") None;
                                     CondStr "(DOMAIN,b.com)"]) |})).
Proof.
  apply unusable_conditions_are_passed_over.
  reflexivity.
Defined.


(* ================================================================== *)
(** ** Facts about [__remove_nodes_by_keywords] *)
(* ================================================================== *)

Module NodeFilterFacts.
Import NodeFilter.

Section Facts.

Context {Fields : Type}.
Implicit Types (c : clash_config Fields) (l : list (proxy_entry Fields))
  (p : proxy_entry Fields) (g : group_entry Fields)
  (gl : list (group_entry Fields)) (kws : list filter_keyword).

Lemma fold_proxy_step kws l :
  forall removed proxies,
    fold_left (proxy_step kws) l (removed, proxies)
    = ((removed ++ removed_names kws l)%list,
       (proxies ++ filter (survives kws) l)%list).
Proof.
  induction l as [|p l IH]; intros removed proxies.
  - simpl. now rewrite !app_nil_r.
  - cbn [fold_left]. unfold removed_names. cbn [flat_map filter].
    destruct p as [[|s|] other|]; cbn [proxy_step survives removed_name].
    + destruct (has_keywords kws (name_text NameAbsent)); cbn [negb];
        rewrite IH; unfold removed_names; now rewrite <- !app_assoc.
    + destruct (has_keywords kws (name_text (NameStr s))); cbn [negb];
        rewrite IH; unfold removed_names; now rewrite <- !app_assoc.
    + now rewrite IH.
    + now rewrite IH.
Qed.

(** The function in closed form. *)
Lemma remove_nodes_eq kws c :
  __remove_nodes_by_keywords kws (ConfigDict c)
  = (ResultConfig (filtered_config kws c),
     (match c_proxies c with
      | Some ProxiesOther => [WarnProxiesNotList]
      | _ => []
      end
        ++ match filter (survives kws) (proxies_list c) with
           | [] => [WarnNoNodeLeft]
           | _ => []
           end)%list).
Proof.
  unfold __remove_nodes_by_keywords, filtered_config, effective_removed,
    proxies_list, groups_list.
  destruct (c_proxies c) as [[l|]|] eqn:Ep.
  - rewrite fold_proxy_step. cbn [app].
    destruct (filter (survives kws) l) as [|p kept] eqn:Ef.
    + destruct (c_proxy_groups c) as [[g|]|]; reflexivity.
    + cbn [set_proxies c_proxy_groups].
      destruct (c_proxy_groups c) as [[g|]|]; reflexivity.
  - cbn [fold_left filter].
    destruct (c_proxy_groups c) as [[g|]|]; reflexivity.
  - cbn [fold_left filter].
    destruct (c_proxy_groups c) as [[g|]|]; reflexivity.
Qed.

Lemma survives_inv kws p :
  survives kws p = true ->
  exists name other,
    p = ProxyDict name other /\ name <> NameOther /\
    has_keywords kws (name_text name) = false.
Proof.
  destruct p as [[|s|] other|]; cbn [survives]; intros H;
    try discriminate; apply negb_true_iff in H;
    eexists _, _; repeat split; eauto; discriminate.
Qed.

Lemma has_keywords_false kws name :
  has_keywords kws name = false ->
  forall k, In (KeywordStr k) kws -> contains k name = false.
Proof.
  unfold has_keywords. intros H k Hin.
  destruct (contains k name) eqn:E; [|reflexivity].
  assert (X : existsb
                (fun keyword =>
                   match keyword with
                   | KeywordStr k0 => contains k0 name
                   | KeywordOther => false
                   end) kws = true).
  { apply existsb_exists. exists (KeywordStr k). auto. }
  congruence.
Qed.

(** X14. When at least one proxy survives, the ["proxies"] of the result
    are the surviving entries of the given list, in their order: each is a
    dictionary whose name is a string (or absent, read as the empty
    string) in which no string keyword occurs. Entries that are not
    dictionaries or whose name is not a string are dropped with the
    filtered ones, and the other keys of the configuration are kept. *)
Theorem surviving_proxies_have_no_keyword kws c l :
  c_proxies c = Some (ProxiesList l) ->
  filter (survives kws) l <> [] ->
  exists out log,
    __remove_nodes_by_keywords kws (ConfigDict c) = (ResultConfig out, log) /\
    c_proxies out = Some (ProxiesList (filter (survives kws) l)) /\
    c_other out = c_other c /\
    (forall p, In p (proxies_list out) ->
       In p l /\
       exists name other,
         p = ProxyDict name other /\ name <> NameOther /\
         forall k, In (KeywordStr k) kws ->
                   contains k (name_text name) = false).
Proof.
  intros Hp Hne. rewrite remove_nodes_eq. eexists _, _.
  split; [reflexivity|].
  unfold filtered_config, proxies_list. rewrite Hp.
  destruct (filter (survives kws) l) as [|p0 kept] eqn:Ef; [contradiction|].
  assert (Hout : forall co : clash_config Fields,
             co = set_proxies c (p0 :: kept) ->
             forall out,
               out = match c_proxy_groups c with
                     | None => co
                     | Some _ =>
                         set_proxy_groups co
                           (filter group_kept
                              (map (clean_group (effective_removed kws c))
                                 (match c_proxy_groups c with
                                  | Some (GroupsList gl) => gl
                                  | _ => []
                                  end)))
                     end ->
               c_proxies out = Some (ProxiesList (p0 :: kept)) /\
               c_other out = c_other c).
  { intros co -> out ->. destruct (c_proxy_groups c); split; reflexivity. }
  destruct (Hout _ eq_refl _ eq_refl) as [E1 E2].
  unfold groups_list. split; [exact E1|]. split; [exact E2|].
  rewrite E1. intros p Hin. rewrite <- Ef in Hin.
  apply filter_In in Hin. destruct Hin as [Hin Hs]. split; [assumption|].
  apply survives_inv in Hs. destruct Hs as (name & other & -> & Hn & Hk).
  exists name, other. repeat split; auto.
  now apply has_keywords_false.
Qed.

(** X15. When no proxy would survive (every entry is filtered out, the
    list is empty, or there is no list), the filter is given up: the
    ["proxies"] of the configuration stay as they are, a warning is
    logged, and no name is taken out of the groups. *)
Theorem filter_is_skipped_when_nothing_survives kws c :
  filter (survives kws) (proxies_list c) = [] ->
  exists out log,
    __remove_nodes_by_keywords kws (ConfigDict c) = (ResultConfig out, log) /\
    c_proxies out = c_proxies c /\
    c_other out = c_other c /\
    In WarnNoNodeLeft log /\
    effective_removed kws c = [] /\
    (forall gl, c_proxy_groups c = Some (GroupsList gl) ->
       c_proxy_groups out
       = Some (GroupsList (filter group_kept (map (clean_group []) gl)))).
Proof.
  intros Hf. rewrite remove_nodes_eq. eexists _, _.
  split; [reflexivity|].
  assert (Er : effective_removed kws c = []).
  { unfold effective_removed. now rewrite Hf. }
  unfold filtered_config, groups_list. rewrite Hf, Er.
  repeat split.
  - now destruct (c_proxy_groups c).
  - now destruct (c_proxy_groups c).
  - apply in_or_app. right. now left.
  - intros gl ->. reflexivity.
Qed.

Lemma clean_group_members removed g gp other :
  clean_group removed g = GroupDict (Some (GroupList gp)) other ->
  forall x, In x gp ->
    exists s, x = MemberStr s /\ ~ In s removed.
Proof.
  destruct g as [[[m|t]|] o|]; cbn [clean_group]; intros E; inversion E.
  subst. intros x Hin. apply filter_In in Hin. destruct Hin as [_ Hk].
  destruct x as [s|]; cbn [member_kept] in Hk; [|discriminate].
  exists s. split; [reflexivity|]. intros Hs.
  apply negb_true_iff in Hk.
  assert (X : existsb (String.eqb s) removed = true).
  { apply existsb_exists. exists s. split; [assumption|apply String.eqb_refl]. }
  congruence.
Qed.

(** X16. In the result every entry of ["proxy-groups"] is a dictionary
    whose ["proxies"] is not empty. Where it is a list, its members are
    strings and none of them is the name of a proxy that was filtered
    out. A configuration without ["proxy-groups"] gets none. *)
Theorem groups_list_no_removed_proxy kws c :
  exists out log,
    __remove_nodes_by_keywords kws (ConfigDict c) = (ResultConfig out, log) /\
    (c_proxy_groups c = None -> c_proxy_groups out = None) /\
    (forall g, In g (groups_list out) ->
       exists gp other,
         g = GroupDict (Some gp) other /\
         match gp with
         | GroupList m =>
             m <> [] /\
             forall x, In x m ->
               exists s, x = MemberStr s /\
                         ~ In s (effective_removed kws c)
         | GroupOther t => t = true
         end).
Proof.
  rewrite remove_nodes_eq. eexists _, _. split; [reflexivity|].
  unfold filtered_config, groups_list at 1.
  destruct (c_proxy_groups c) as [v|] eqn:Eg.
  - split; [discriminate|]. cbn [set_proxy_groups c_proxy_groups].
    intros g Hin. apply filter_In in Hin. destruct Hin as [Hin Hk].
    apply in_map_iff in Hin. destruct Hin as (g0 & Eg0 & _).
    destruct g as [[[m|t]|] other|]; cbn [group_kept] in Hk;
      try discriminate.
    + exists (GroupList m), other. split; [reflexivity|]. split.
      * destruct m; [discriminate|discriminate].
      * now apply (clean_group_members _ _ _ _ Eg0).
    + exists (GroupOther t), other. split; [reflexivity|assumption].
  - split.
    + intros _. now destruct (filter (survives kws) (proxies_list c)).
    + intros g Hin. unfold groups_list in Hin.
      destruct (filter (survives kws) (proxies_list c));
        cbn [set_proxies c_proxy_groups] in Hin; rewrite Eg in Hin;
        destruct Hin.
Qed.

(* ------------------------------------------------------------------ *)
(** *** Filtering twice *)

Lemma filter_idem {A} (f : A -> bool) (l : list A) :
  filter f (filter f l) = filter f l.
Proof.
  induction l as [|x l IH]; [reflexivity|]. cbn [filter].
  destruct (f x) eqn:E; [|assumption]. cbn [filter]. now rewrite E, IH.
Qed.

Lemma removed_names_of_survivors kws l :
  removed_names kws (filter (survives kws) l) = [].
Proof.
  unfold removed_names. induction l as [|p l IH]; [reflexivity|].
  cbn [filter]. destruct (survives kws p) eqn:E; [|assumption].
  cbn [flat_map]. rewrite IH, app_nil_r.
  destruct p as [[|s|] other|]; cbn [survives removed_name] in *;
    try discriminate; apply negb_true_iff in E; now rewrite E.
Qed.

Lemma clean_group_again removed g :
  clean_group [] (clean_group removed g) = clean_group removed g.
Proof.
  destruct g as [[[m|t]|] other|]; cbn [clean_group]; try reflexivity.
  do 3 f_equal. induction m as [|x m IH]; [reflexivity|].
  cbn [filter]. destruct (member_kept removed x) eqn:E; [|assumption].
  cbn [filter]. destruct x as [s|]; [|discriminate].
  cbn [member_kept existsb negb]. now rewrite IH.
Qed.

Lemma clean_kept_again removed gl :
  filter group_kept
    (map (clean_group []) (filter group_kept (map (clean_group removed) gl)))
  = filter group_kept (map (clean_group removed) gl).
Proof.
  induction gl as [|g gl IH]; [reflexivity|]. cbn [map filter].
  destruct (group_kept (clean_group removed g)) eqn:E; [|assumption].
  cbn [map filter]. now rewrite clean_group_again, E, IH.
Qed.

Lemma proxies_list_filtered kws c :
  proxies_list (filtered_config kws c)
  = match filter (survives kws) (proxies_list c) with
    | [] => proxies_list c
    | kept => kept
    end.
Proof.
  unfold filtered_config.
  destruct (filter (survives kws) (proxies_list c)) as [|p kept];
    destruct (c_proxy_groups c); reflexivity.
Qed.

Lemma survivors_of_filtered kws c :
  filter (survives kws) (proxies_list (filtered_config kws c))
  = filter (survives kws) (proxies_list c).
Proof.
  rewrite proxies_list_filtered.
  destruct (filter (survives kws) (proxies_list c)) as [|p kept] eqn:E;
    [assumption|].
  rewrite <- E. apply filter_idem.
Qed.

Lemma effective_removed_filtered kws c :
  effective_removed kws (filtered_config kws c) = [].
Proof.
  unfold effective_removed. rewrite survivors_of_filtered.
  destruct (filter (survives kws) (proxies_list c)) as [|p kept] eqn:E;
    [reflexivity|].
  rewrite proxies_list_filtered, E, <- E.
  apply removed_names_of_survivors.
Qed.

Lemma filtered_config_again kws c :
  fst (__remove_nodes_by_keywords kws
         (ConfigDict (filtered_config kws c)))
  = ResultConfig (filtered_config kws c).
Proof.
  rewrite remove_nodes_eq. cbn [fst]. f_equal.
  unfold filtered_config at 1.
  rewrite survivors_of_filtered, effective_removed_filtered.
  unfold filtered_config, groups_list.
  destruct (filter (survives kws) (proxies_list c)) as [|p kept] eqn:Ef;
    destruct (c_proxy_groups c) as [[gl|]|] eqn:Eg;
    cbn [set_proxies set_proxy_groups c_proxies c_proxy_groups c_other map
           filter];
    rewrite ?Eg, ?clean_kept_again;
    try reflexivity;
    destruct c; cbn in *; subst; reflexivity.
Qed.

(** X17. Filtering is idempotent: given the configuration it returned,
    with the same keywords, the function returns it unchanged. *)
Theorem filtering_twice_changes_nothing kws c out log :
  __remove_nodes_by_keywords kws (ConfigDict c) = (ResultConfig out, log) ->
  fst (__remove_nodes_by_keywords kws (ConfigDict out)) = ResultConfig out.
Proof.
  rewrite remove_nodes_eq. intros H. inversion H; subst out.
  apply filtered_config_again.
Qed.

End Facts.

Lemma surviving_proxies_have_no_keyword_witness :
  exists out log,
    __remove_nodes_by_keywords [KeywordStr "HK"; KeywordOther]
      (ConfigDict
         {| c_proxies :=
              Some (ProxiesList [ProxyDict (NameStr "HK-01") 1;
                                 ProxyDict (NameStr "JP-01") 2;
                                 ProxyOther;
                                 ProxyDict NameAbsent 3]);
            c_proxy_groups := None;
            c_other := 0 |})
    = (ResultConfig out, log) /\
    c_proxies out
    = Some (ProxiesList [ProxyDict (NameStr "JP-01") 2;
                         ProxyDict NameAbsent 3]).
Proof.
  destruct (surviving_proxies_have_no_keyword
              [KeywordStr "HK"; KeywordOther]
              {| c_proxies :=
                   Some (ProxiesList [ProxyDict (NameStr "HK-01") 1;
                                      ProxyDict (NameStr "JP-01") 2;
                                      ProxyOther;
                                      ProxyDict NameAbsent 3]);
                 c_proxy_groups := None;
                 c_other := 0 |}
              [ProxyDict (NameStr "HK-01") 1;
               ProxyDict (NameStr "JP-01") 2;
               ProxyOther;
               ProxyDict NameAbsent 3]
              eq_refl ltac:(discriminate))
    as (out & log & E & Hp & _).
  exists out, log. split; [exact E|exact Hp].
Defined.

Lemma filter_is_skipped_when_nothing_survives_witness :
  exists out log,
    __remove_nodes_by_keywords [KeywordStr ""]
      (ConfigDict
         {| c_proxies := Some (ProxiesList [ProxyDict (NameStr "HK-01") 1;
                                            ProxyDict (NameStr "JP-01") 2]);
            c_proxy_groups :=
              Some (GroupsList [GroupDict
                                  (Some (GroupList [MemberStr "HK-01";
                                                    MemberOther]))
                                  7]);
            c_other := 0 |})
    = (ResultConfig out, log) /\
    c_proxies out
    = Some (ProxiesList [ProxyDict (NameStr "HK-01") 1;
                         ProxyDict (NameStr "JP-01") 2]) /\
    c_proxy_groups out
    = Some (GroupsList [GroupDict (Some (GroupList [MemberStr "HK-01"])) 7]).
Proof.
  destruct (filter_is_skipped_when_nothing_survives
              [KeywordStr ""]
              {| c_proxies :=
                   Some (ProxiesList [ProxyDict (NameStr "HK-01") 1;
                                      ProxyDict (NameStr "JP-01") 2]);
                 c_proxy_groups :=
                   Some (GroupsList [GroupDict
                                       (Some (GroupList [MemberStr "HK-01";
                                                         MemberOther]))
                                       7]);
                 c_other := 0 |}
              eq_refl)
    as (out & log & E & Hp & _ & _ & _ & Hg).
  exists out, log. split; [exact E|]. split; [exact Hp|].
  apply (Hg _ eq_refl).
Defined.

Lemma filtering_twice_changes_nothing_witness :
  fst (__remove_nodes_by_keywords [KeywordStr "HK"]
         (ConfigDict
            {| c_proxies := Some (ProxiesList [ProxyDict (NameStr "JP-01") 2]);
               c_proxy_groups :=
                 Some (GroupsList
                         [GroupDict (Some (GroupList [MemberStr "JP-01"])) 7]);
               c_other := 0 |}))
  = ResultConfig
      {| c_proxies := Some (ProxiesList [ProxyDict (NameStr "JP-01") 2]);
         c_proxy_groups :=
           Some (GroupsList
                   [GroupDict (Some (GroupList [MemberStr "JP-01"])) 7]);
         c_other := 0 |}.
Proof.
  apply (filtering_twice_changes_nothing [KeywordStr "HK"]
           {| c_proxies := Some (ProxiesList [ProxyDict (NameStr "HK-01") 1;
                                              ProxyDict (NameStr "JP-01") 2]);
              c_proxy_groups :=
                Some (GroupsList
                        [GroupDict (Some (GroupList [MemberStr "HK-01"])) 5;
                         GroupDict (Some (GroupList [MemberStr "HK-01";
                                                     MemberStr "JP-01"])) 7]);
              c_other := 0 |}
           _ []).
  reflexivity.
Defined.

End NodeFilterFacts.

